(** * TrimTime queue master: the database routines of the Supabase migrations

    A shallow embedding of the PL/pgSQL routines declared in the migrations
    of the repository

      - [update_queue_positions]   (queue recompute procedure),
      - [update_shop_rating]       (rating aggregation trigger),
      - [update_updated_at_column] (timestamp touch trigger),
      - [handle_new_user]          (identity-linked profile creation),

    together with the part of the schema they read and write.  Tables are
    lists of rows in heap order, SQL NULL is [None], a statement that raises
    is [Raise] (the enclosing transaction is rolled back, so no state comes
    with it), and [now()] is a parameter of every routine: it is the start
    time of the transaction the routine runs in.

    The engine promises no order among rows with equal ORDER BY keys, and no
    scan order for a table whose rows are updated.  [order_by] and the list
    order of a table are one admissible choice; [queue_answer] is every
    choice.  A statement that depends on the order among equal keys is made
    over [queue_answer], or carries the hypothesis that the keys in question
    are distinct, where every choice is the same.  AVG is the exact quotient.
    A name written without its schema is looked up along the search_path the
    routine is declared with.  Constraints that refer to rows outside these
    tables are left out. *)

From Stdlib Require Import ZArith QArith Qround Lia Lqa.
From stdpp Require Import base decidable option list list_numbers sorting strings gmap.

Close Scope Q_scope.
Local Open Scope Z_scope.

(** ** Errors and the result monad *)

(** The SQLSTATE conditions the modelled statements can raise. *)
Inductive sqlerror : Type :=
  | numeric_value_out_of_range      (* 22003: integer / numeric field overflow *)
  | invalid_text_representation     (* 22P02: bad input value for an enum *)
  | not_null_violation              (* 23502 *)
  | foreign_key_violation           (* 23503 *)
  | unique_violation                (* 23505 *)
  | check_violation                 (* 23514 *)
  | undefined_object.               (* 42704: type "..." does not exist *)

Inductive result (A : Type) : Type :=
  | Ok (a : A)
  | Raise (e : sqlerror).
Arguments Ok {A} a.
Arguments Raise {A} e.

Definition bind {A B} (m : result A) (k : A -> result B) : result B :=
  match m with
  | Ok a => k a
  | Raise e => Raise e
  end.

Notation "'do' x <- m ; k" := (bind m (fun x => k))
  (at level 10, x name, m at level 100, k at level 200).

Definition ensure (c : bool) (e : sqlerror) : result unit :=
  if c then Ok tt else Raise e.

(** A statement applied to every row of a table, in scan order. *)
Fixpoint mapM {A B} (f : A -> result B) (l : list A) : result (list B) :=
  match l with
  | [] => Ok []
  | x :: l' => do y <- f x; do ys <- mapM f l'; Ok (y :: ys)
  end.

(** ** Column types *)

Definition uuid := Z.
Definition timestamptz := Z.           (* microseconds since the epoch *)
Definition text := string.

(** [INTEGER] is the 32-bit signed integer; arithmetic that leaves its range
    raises instead of wrapping. *)
Definition int4_min : Z := - 2 ^ 31.
Definition int4_max : Z := 2 ^ 31 - 1.

Definition in_int4 (z : Z) : bool := (int4_min <=? z) && (z <=? int4_max).

Definition int4 (z : Z) : result Z :=
  if in_int4 z then Ok z else Raise numeric_value_out_of_range.

(** Strict SQL operators: NULL in, NULL out. *)
Definition int4mi (a b : option Z) : result (option Z) :=
  match a, b with
  | Some x, Some y => do z <- int4 (x - y); Ok (Some z)
  | _, _ => Ok None
  end.

Definition int4mul (a b : option Z) : result (option Z) :=
  match a, b with
  | Some x, Some y => do z <- int4 (x * y); Ok (Some z)
  | _, _ => Ok None
  end.

(** [DECIMAL(p,2)] values are held as their count of hundredths. *)
Definition numeric2 := Z.

Definition numeric_3_2 (h : numeric2) : result numeric2 :=
  if (Z.abs h <? 1000) then Ok h else Raise numeric_value_out_of_range.

Inductive user_role : Type := customer | barber | admin.

Inductive booking_status : Type :=
  waiting | in_progress | completed | cancelled | no_show.

Global Instance user_role_eq_dec : EqDecision user_role.
Proof. solve_decision. Defined.
Global Instance booking_status_eq_dec : EqDecision booking_status.
Proof. solve_decision. Defined.

(** ** Tables *)

Module Profile.
Record row : Type := mk {
  id : uuid;
  user_id : uuid;
  name : text;
  phone : option text;
  role : user_role;
  created_at : option timestamptz;
  updated_at : option timestamptz }.
Definition with_updated_at (t : option timestamptz) (r : row) : row :=
  mk (id r) (user_id r) (name r) (phone r) (role r) (created_at r) t.
End Profile.

Module Shop.
Record row : Type := mk {
  id : uuid;
  user_id : uuid;
  shop_name : text;
  shop_address : text;
  rating_avg : option numeric2;
  total_reviews : option Z;
  total_bookings : option Z;
  max_queue_limit : option Z;
  avg_service_duration : option Z;
  is_active : option bool;
  created_at : option timestamptz;
  updated_at : option timestamptz }.
Definition with_updated_at (t : option timestamptz) (r : row) : row :=
  mk (id r) (user_id r) (shop_name r) (shop_address r) (rating_avg r)
     (total_reviews r) (total_bookings r) (max_queue_limit r)
     (avg_service_duration r) (is_active r) (created_at r) t.
Definition with_rating (avg : option numeric2) (n : option Z) (r : row) : row :=
  mk (id r) (user_id r) (shop_name r) (shop_address r) avg
     n (total_bookings r) (max_queue_limit r)
     (avg_service_duration r) (is_active r) (created_at r) (updated_at r).
End Shop.

Module Booking.
Record row : Type := mk {
  id : uuid;
  user_id : uuid;
  shop_id : uuid;
  service_name : text;
  service_price : option numeric2;
  status : option booking_status;
  queue_position : option Z;
  estimated_wait_time : option Z;
  joined_at : option timestamptz;
  started_at : option timestamptz;
  completed_at : option timestamptz;
  created_at : option timestamptz;
  updated_at : option timestamptz }.
Definition with_updated_at (t : option timestamptz) (r : row) : row :=
  mk (id r) (user_id r) (shop_id r) (service_name r) (service_price r)
     (status r) (queue_position r) (estimated_wait_time r) (joined_at r)
     (started_at r) (completed_at r) (created_at r) t.
Definition with_queue (pos wait : option Z) (r : row) : row :=
  mk (id r) (user_id r) (shop_id r) (service_name r) (service_price r)
     (status r) pos wait (joined_at r)
     (started_at r) (completed_at r) (created_at r) (updated_at r).
End Booking.

Module Review.
Record row : Type := mk {
  id : uuid;
  user_id : uuid;
  shop_id : uuid;
  booking_id : option uuid;
  rating : Z;
  review_text : option text;
  tags : option (list text);
  created_at : option timestamptz }.
Definition with_rating (n : Z) (r : row) : row :=
  mk (id r) (user_id r) (shop_id r) (booking_id r) n (review_text r)
     (tags r) (created_at r).
End Review.

(** A JSON value as the [->>] operator sees it: JSON null, a JSON string, or
    any other value, carried as the text [->>] renders it to. *)
Inductive json : Type :=
  | JNull
  | JString (s : text)
  | JOther (rendered : text).

Module AuthUser.
Record row : Type := mk {
  id : uuid;
  raw_user_meta_data : option (gmap string json) }.
End AuthUser.

Record db : Type := mkdb {
  auth_users : list AuthUser.row;
  profiles : list Profile.row;
  barber_shops : list Shop.row;
  bookings : list Booking.row;
  reviews : list Review.row }.

Definition with_profiles (ps : list Profile.row) (d : db) : db :=
  mkdb (auth_users d) ps (barber_shops d) (bookings d) (reviews d).
Definition with_barber_shops (ss : list Shop.row) (d : db) : db :=
  mkdb (auth_users d) (profiles d) ss (bookings d) (reviews d).
Definition with_bookings (bs : list Booking.row) (d : db) : db :=
  mkdb (auth_users d) (profiles d) (barber_shops d) bs (reviews d).
Definition with_reviews (rs : list Review.row) (d : db) : db :=
  mkdb (auth_users d) (profiles d) (barber_shops d) (bookings d) rs.
Definition with_auth_users (us : list AuthUser.row) (d : db) : db :=
  mkdb us (profiles d) (barber_shops d) (bookings d) (reviews d).

(** ** The timestamp touch trigger

    [update_updated_at_column] is one trigger function attached BEFORE UPDATE
    to three tables; it is written against whatever row type carries an
    [updated_at] column. *)
Class HasUpdatedAt (R : Type) : Type := {
  get_updated_at : R -> option timestamptz;
  set_updated_at : option timestamptz -> R -> R;
  get_set_updated_at : forall t r, get_updated_at (set_updated_at t r) = t;
  set_set_updated_at : forall t t' r,
    set_updated_at t (set_updated_at t' r) = set_updated_at t r }.

Global Instance profile_updated_at : HasUpdatedAt Profile.row :=
  {| get_updated_at := Profile.updated_at;
     set_updated_at := Profile.with_updated_at;
     get_set_updated_at := fun _ _ => eq_refl;
     set_set_updated_at := fun _ _ _ => eq_refl |}.
Global Instance shop_updated_at : HasUpdatedAt Shop.row :=
  {| get_updated_at := Shop.updated_at;
     set_updated_at := Shop.with_updated_at;
     get_set_updated_at := fun _ _ => eq_refl;
     set_set_updated_at := fun _ _ _ => eq_refl |}.
Global Instance booking_updated_at : HasUpdatedAt Booking.row :=
  {| get_updated_at := Booking.updated_at;
     set_updated_at := Booking.with_updated_at;
     get_set_updated_at := fun _ _ => eq_refl;
     set_set_updated_at := fun _ _ _ => eq_refl |}.

(** NEW.updated_at = now(); RETURN NEW; *)
Definition update_updated_at_column {R} `{HasUpdatedAt R} (now : timestamptz) (NEW : R) : R :=
  set_updated_at (Some now) NEW.

(** The three triggers that run it. *)
Definition update_profiles_updated_at := @update_updated_at_column Profile.row _.
Definition update_barber_shops_updated_at := @update_updated_at_column Shop.row _.
Definition update_bookings_updated_at := @update_updated_at_column Booking.row _.

(** A row-level UPDATE of one row: the caller's SET clause builds NEW from
    OLD, then the BEFORE UPDATE trigger has the last word on NEW. *)
Definition update_row {R} `{HasUpdatedAt R} (now : timestamptz) (set : R -> R) (OLD : R) : R :=
  update_updated_at_column now (set OLD).

(** The two times of an UPDATE statement: the wall clock at which it runs,
    and the start of the transaction it runs in.  now() is the second, and a
    transaction starts no later than its statements run. *)
Record statement_time : Type := mk_statement_time {
  started : timestamptz;
  executed : timestamptz }.

Definition in_transaction (c : statement_time) : Prop := started c <= executed c.

(** Two updates, the second running no earlier than the first. *)
Definition successive (c1 c2 : statement_time) : Prop :=
  in_transaction c1 /\ in_transaction c2 /\ executed c1 <= executed c2.

Definition update_row_at {R} `{HasUpdatedAt R} (c : statement_time) (set : R -> R) (OLD : R)
    : R :=
  update_row (started c) set OLD.

(** ** The queue recompute procedure *)

(** [ORDER BY joined_at ASC] puts NULLs last. *)
Definition joined_at_le (a b : option timestamptz) : Prop :=
  match a, b with
  | Some x, Some y => x <= y
  | _, None => True
  | None, Some _ => False
  end.

Global Instance joined_at_le_dec a b : Decision (joined_at_le a b).
Proof. destruct a, b; simpl; apply _. Defined.

(** The sort of an ORDER BY on one nullable timestamp column.  Rows with equal
    keys keep the order the scan delivered them in.  The engine promises no
    order among them: this is one of the orders it may give, [queue_answer]
    below is all of them, and where the keys are distinct there is one. *)
Section order_by.
Context {A : Type} (key : A -> option timestamptz).

Definition key_le (x y : A) : Prop := joined_at_le (key x) (key y).

Fixpoint sort_insert (x : A) (l : list A) : list A :=
  match l with
  | [] => [x]
  | y :: l' => if decide (key_le x y) then x :: y :: l' else y :: sort_insert x l'
  end.

Fixpoint order_by (l : list A) : list A :=
  match l with
  | [] => []
  | x :: l' => sort_insert x (order_by l')
  end.
End order_by.

(** WHERE shop_id = shop_uuid AND status = 'waiting' *)
Definition waiting_in (shop_uuid : uuid) (b : Booking.row) : Prop :=
  Booking.shop_id b = shop_uuid /\ Booking.status b = Some waiting.

Global Instance waiting_in_dec shop_uuid b : Decision (waiting_in shop_uuid b).
Proof. unfold waiting_in; apply _. Defined.

(** SELECT ... FROM public.bookings WHERE ... ORDER BY joined_at ASC *)
Definition waiting_queue (shop_uuid : uuid) (bs : list Booking.row) : list Booking.row :=
  order_by Booking.joined_at (filter (waiting_in shop_uuid) bs).

(** SELECT avg_service_duration INTO avg_duration FROM public.barber_shops
    WHERE id = shop_uuid: the first row found, NULL when there is none. *)
Definition select_avg_service_duration (shop_uuid : uuid) (ss : list Shop.row) : option Z :=
  match filter (fun s => Shop.id s = shop_uuid) ss with
  | s :: _ => Shop.avg_service_duration s
  | [] => None
  end.

(** UPDATE public.bookings SET queue_position = .., estimated_wait_time = ..
    WHERE id = booking_record.id; every row it touches goes through
    update_bookings_updated_at, the BEFORE UPDATE trigger of the table.  The
    new version of a row is kept at the place of the old one in the list;
    where the engine stores it decides nothing but the scan order, which only
    the order among equal ORDER BY keys can show. *)
Definition update_booking_queue (now : timestamptz) (pos wait : option Z)
    (target : uuid) (bs : list Booking.row) : list Booking.row :=
  (fun b => if decide (Booking.id b = target)
            then update_row now (Booking.with_queue pos wait) b
            else b) <$> bs.

(** The FOR loop, over the ids the query returned when the loop was entered. *)
Fixpoint queue_loop (now : timestamptz) (avg_duration : option Z)
    (ids : list uuid) (position_counter : Z) (bs : list Booking.row)
    : result (list Booking.row) :=
  match ids with
  | [] => Ok bs
  | booking_record :: rest =>
      do before <- int4mi (Some position_counter) (Some 1);
      do wait <- int4mul before avg_duration;
      let bs' := update_booking_queue now (Some position_counter) wait booking_record bs in
      do next <- int4 (position_counter + 1);
      queue_loop now avg_duration rest next bs'
  end.

Definition update_queue_positions (now : timestamptz) (shop_uuid : uuid) (d : db) : result db :=
  let position_counter := 1 in
  let avg_duration := select_avg_service_duration shop_uuid (barber_shops d) in
  let ids := Booking.id <$> waiting_queue shop_uuid (bookings d) in
  do bs <- queue_loop now avg_duration ids position_counter (bookings d);
  Ok (with_bookings bs d).

(** Every answer the engine may give to the query of the loop: the waiting
    bookings of the shop, each once, in an ascending order of joined_at.
    Among bookings with equal joined_at any order is an answer, and where the
    rows lie in the table does not matter. *)
Definition queue_answer (shop_uuid : uuid) (bs q : list Booking.row) : Prop :=
  q ≡ₚ filter (waiting_in shop_uuid) bs /\ Sorted (key_le Booking.joined_at) q.

(** The procedure, run over a given answer to its query. *)
Definition update_queue_positions_over (q : list Booking.row)
    (now : timestamptz) (shop_uuid : uuid) (d : db) : result db :=
  let position_counter := 1 in
  let avg_duration := select_avg_service_duration shop_uuid (barber_shops d) in
  let ids := Booking.id <$> q in
  do bs <- queue_loop now avg_duration ids position_counter (bookings d);
  Ok (with_bookings bs d).

(** What a call of the procedure may leave behind: its outcome over some
    answer to its query.  [update_queue_positions] is the outcome over the
    answer [waiting_queue]. *)
Definition recompute_outcome (now : timestamptz) (shop_uuid : uuid) (d d' : db) : Prop :=
  exists q,
    queue_answer shop_uuid (bookings d) q /\
    update_queue_positions_over q now shop_uuid d = Ok d'.

(** No two waiting bookings of the shop joined at the same time. *)
Definition distinct_join_times (shop_uuid : uuid) (bs : list Booking.row) : Prop :=
  NoDup (Booking.joined_at <$> filter (waiting_in shop_uuid) bs).

(** Schema constraints the theorems lean on: the primary keys. *)
Definition bookings_pkey (d : db) : Prop := NoDup (Booking.id <$> bookings d).
Definition barber_shops_pkey (d : db) : Prop := NoDup (Shop.id <$> barber_shops d).

(** The scenario of the specification: a shop with a 30 minute average and
    three customers A, B, C who joined in that order, stored out of order and
    next to a served booking and a booking of another shop. *)
Module Scenario.
Definition shop (id : uuid) (dur : option Z) : Shop.row :=
  Shop.mk id (100 + id) "Fade Factory" "1 Main St" (Some 0) (Some 0) (Some 0)
    (Some 10) dur (Some true) (Some 0) (Some 0).
Definition booking (id shop_id : uuid) (st : booking_status) (joined : Z) : Booking.row :=
  Booking.mk id (200 + id) shop_id "Haircut" (Some 1500) (Some st) None None
    (Some joined) None None (Some joined) (Some joined).
Definition A := booking 1 7 waiting 1000.
Definition B := booking 2 7 waiting 2000.
Definition C := booking 3 7 waiting 3000.
Definition served := booking 4 7 completed 500.
Definition elsewhere := booking 5 8 waiting 100.
Definition state : db :=
  mkdb [] [] [shop 7 (Some 30); shop 8 (Some 20)] [C; served; A; elsewhere; B] [].
Definition state_no_duration : db :=
  mkdb [] [] [shop 7 None; shop 8 (Some 20)] [C; served; A; elsewhere; B] [].
Definition queued (b : Booking.row) (pos wait : Z) (now : timestamptz) : Booking.row :=
  Booking.with_updated_at (Some now) (Booking.with_queue (Some pos) (Some wait) b).
End Scenario.

(** ** The rating aggregation trigger *)

Definition SUM (xs : list Z) : Z := foldr Z.add 0 xs.

Definition COUNT {A} (l : list A) : Z := Z.of_nat (length l).

(** AVG over an integer column: NULL on no rows, else the quotient of sum and
    count, kept exact here (the engine carries it to sixteen or more digits). *)
Definition AVG (xs : list Z) : option Q :=
  match xs with
  | [] => None
  | _ => Some (inject_Z (SUM xs) / inject_Z (COUNT xs))%Q
  end.

(** ROUND(x, 2) on numeric rounds to the nearest hundredth, ties away from
    zero; the result is held as its count of hundredths. *)
Definition ROUND2 (x : Q) : numeric2 :=
  let c := (x * 100)%Q in
  if Qle_bool 0 c then Qfloor (c + (1 # 2))%Q else - Qfloor (- c + (1 # 2))%Q.

Definition reviews_of (shop : uuid) (rs : list Review.row) : list Review.row :=
  filter (fun r => Review.shop_id r = shop) rs.

(** SELECT ROUND(AVG(rating)::numeric, 2) FROM public.reviews WHERE shop_id = .. *)
Definition select_rating_avg (shop : uuid) (rs : list Review.row) : option numeric2 :=
  ROUND2 <$> AVG (Review.rating <$> reviews_of shop rs).

(** SELECT COUNT( * ) FROM public.reviews WHERE shop_id = .. *)
Definition select_total_reviews (shop : uuid) (rs : list Review.row) : Z :=
  COUNT (reviews_of shop rs).

(** Storing into [rating_avg DECIMAL(3,2)] and [total_reviews INTEGER]. *)
Definition store_rating (avg : option numeric2) (n : Z) (s : Shop.row) : result Shop.row :=
  do a <- match avg with
          | Some h => do h' <- numeric_3_2 h; Ok (Some h')
          | None => Ok None
          end;
  do c <- int4 n;
  Ok (Shop.with_rating a (Some c) s).

(** The trigger function: one UPDATE of public.barber_shops, whose rows go
    through the BEFORE UPDATE trigger of that table. *)
Definition update_shop_rating (now : timestamptz) (NEW : Review.row) (d : db) : result db :=
  let avg := select_rating_avg (Review.shop_id NEW) (reviews d) in
  let n := select_total_reviews (Review.shop_id NEW) (reviews d) in
  do ss <- mapM (fun s => if decide (Shop.id s = Review.shop_id NEW)
                          then do s' <- store_rating avg n s;
                               Ok (update_updated_at_column now s')
                          else Ok s) (barber_shops d);
  Ok (with_barber_shops ss d).

(** CHECK (rating >= 1 AND rating <= 5) *)
Definition rating_check (r : Review.row) : bool :=
  (1 <=? Review.rating r) && (Review.rating r <=? 5).

(** UNIQUE(user_id, booking_id): rows with a NULL booking_id never collide. *)
Definition review_collides (NEW r : Review.row) : bool :=
  bool_decide (Review.user_id r = Review.user_id NEW) &&
  match Review.booking_id r, Review.booking_id NEW with
  | Some x, Some y => bool_decide (x = y)
  | _, _ => false
  end.

(** INSERT INTO public.reviews: the constraints of the table on the new row,
    then the row is stored and update_shop_rating_on_review (AFTER INSERT,
    FOR EACH ROW) runs in the same transaction. *)
Definition insert_review (now : timestamptz) (NEW : Review.row) (d : db) : result db :=
  do _ <- ensure (rating_check NEW) check_violation;
  do _ <- ensure (bool_decide (Review.id NEW ∉ Review.id <$> reviews d)) unique_violation;
  do _ <- ensure (negb (existsb (review_collides NEW) (reviews d))) unique_violation;
  do _ <- ensure (bool_decide (Review.user_id NEW ∈ AuthUser.id <$> auth_users d))
            foreign_key_violation;
  do _ <- ensure (bool_decide (Review.shop_id NEW ∈ Shop.id <$> barber_shops d))
            foreign_key_violation;
  do _ <- ensure (match Review.booking_id NEW with
                  | Some b => bool_decide (b ∈ Booking.id <$> bookings d)
                  | None => true
                  end) foreign_key_violation;
  update_shop_rating now NEW (with_reviews (reviews d ++ [NEW]) d).

(** UPDATE public.reviews SET rating = n WHERE id = rid, issued by identity
    [uid]: the policy "Users can update their own reviews" lets it reach the
    rows with user_id = uid, the CHECK constraint applies to the new row, and
    no trigger is declared for UPDATE on public.reviews. *)
Definition update_review_rating (uid rid : uuid) (n : Z) (d : db) : result db :=
  do rs <- mapM (fun r => if decide (Review.id r = rid /\ Review.user_id r = uid)
                          then let r' := Review.with_rating n r in
                               do _ <- ensure (rating_check r') check_violation;
                               Ok r'
                          else Ok r) (reviews d);
  Ok (with_reviews rs d).

(** What the cached columns of a shop are meant to mirror. *)
Definition rating_cache_fresh (d : db) (s : Shop.row) : Prop :=
  Shop.rating_avg s = select_rating_avg (Shop.id s) (reviews d) /\
  Shop.total_reviews s = Some (select_total_reviews (Shop.id s) (reviews d)).

(** The CHECK constraint holds of the rows already stored. *)
Definition reviews_rating_check (d : db) : Prop :=
  Forall (fun r => rating_check r = true) (reviews d).

(** The new review row passes the constraints of the table, and the table is
    short of the INTEGER range. *)
Definition review_admissible (NEW : Review.row) (d : db) : Prop :=
  rating_check NEW = true /\
  (Review.id NEW ∉ Review.id <$> reviews d) /\
  existsb (review_collides NEW) (reviews d) = false /\
  (Review.user_id NEW ∈ AuthUser.id <$> auth_users d) /\
  (Review.shop_id NEW ∈ Shop.id <$> barber_shops d) /\
  (forall b, Review.booking_id NEW = Some b -> b ∈ Booking.id <$> bookings d) /\
  Z.of_nat (length (reviews d)) < int4_max.

(** ** Identity-linked profile creation *)

(** json ->> key, on a nullable jsonb column holding an object: NULL for a
    NULL column, an absent key or a JSON null, the text otherwise. *)
Definition json_get_text (j : option (gmap string json)) (k : string) : option text :=
  match j with
  | None => None
  | Some m =>
      match m !! k with
      | None | Some JNull => None
      | Some (JString s) => Some s
      | Some (JOther t) => Some t
      end
  end.

Definition COALESCE {A} (a : option A) (b : A) : A :=
  match a with
  | Some x => x
  | None => b
  end.

Definition user_role_label (r : user_role) : text :=
  match r with
  | customer => "customer"
  | barber => "barber"
  | admin => "admin"
  end.

(** A type name written without a schema is looked up in pg_catalog and then
    in the schemas of the search_path in force; a name found in none of them
    raises 42704.  The migrations create their enum types with an unqualified
    CREATE TYPE, which puts them in public, the schema the migrations run
    in. *)
Definition search_path := list string.

Definition type_schema (type_name : string) : option string :=
  if decide (type_name = "user_role") then Some "public"
  else if decide (type_name = "booking_status") then Some "public"
  else None.

Definition resolve_type (path : search_path) (type_name : string) : result unit :=
  match type_schema type_name with
  | Some schema => ensure (bool_decide (schema ∈ "pg_catalog" :: path)) undefined_object
  | None => Raise undefined_object
  end.

(** text::user_role.  The type name is resolved first, whatever the value;
    then NULL stays NULL, a label gives its value, anything else is refused.
    The labels are those of CREATE TYPE user_role; the later CREATE TYPE with
    two labels sits in a block that swallows duplicate_object and changes
    nothing. *)
Definition cast_user_role (path : search_path) (t : option text) : result (option user_role) :=
  do _ <- resolve_type path "user_role";
  match t with
  | None => Ok None
  | Some s =>
      if decide (s = "customer") then Ok (Some customer)
      else if decide (s = "barber") then Ok (Some barber)
      else if decide (s = "admin") then Ok (Some admin)
      else Raise invalid_text_representation
  end.

(** INSERT INTO public.profiles: primary key, UNIQUE(user_id), and the
    reference to auth.users. *)
Definition insert_profile (NEW : Profile.row) (d : db) : result db :=
  do _ <- ensure (bool_decide (Profile.id NEW ∉ Profile.id <$> profiles d)) unique_violation;
  do _ <- ensure (bool_decide (Profile.user_id NEW ∉ Profile.user_id <$> profiles d))
            unique_violation;
  do _ <- ensure (bool_decide (Profile.user_id NEW ∈ AuthUser.id <$> auth_users d))
            foreign_key_violation;
  Ok (with_profiles (profiles d ++ [NEW]) d).

(** The body of the trigger function, under the search_path it runs with.
    [fresh] is what gen_random_uuid() draws for the id column, which the
    INSERT leaves to its default, like the two timestamps.  The table is
    written with its schema, public.profiles; the type of the cast is not. *)
Definition handle_new_user_body (path : search_path)
    (now : timestamptz) (fresh : uuid) (new : AuthUser.row) (d : db) : result db :=
  let meta := AuthUser.raw_user_meta_data new in
  let name := COALESCE (json_get_text meta "name") "" in
  let phone := COALESCE (json_get_text meta "phone") "" in
  do cast <- cast_user_role path (json_get_text meta "role");
  let role := COALESCE cast customer in
  insert_profile
    (Profile.mk fresh (AuthUser.id new) name (Some phone) role (Some now) (Some now)) d.

(** The trigger function as declared: SECURITY DEFINER SET search_path = ''. *)
Definition handle_new_user : timestamptz -> uuid -> AuthUser.row -> db -> result db :=
  handle_new_user_body [].

(** The identity creation of the auth subsystem, as far as this schema sees
    it: a row enters auth.users and on_auth_user_created (AFTER INSERT, FOR
    EACH ROW) runs handle_new_user in the same transaction. *)
Definition insert_auth_user (now : timestamptz) (fresh : uuid) (new : AuthUser.row) (d : db)
    : result db :=
  do _ <- ensure (bool_decide (AuthUser.id new ∉ AuthUser.id <$> auth_users d)) unique_violation;
  handle_new_user now fresh new (with_auth_users (auth_users d ++ [new]) d).

Definition profiles_of (uid : uuid) (d : db) : list Profile.row :=
  filter (fun p => Profile.user_id p = uid) (profiles d).

(** ** Vocabulary of the statements *)

(** The place the loop gives booking [x] when it runs over [ids] with its
    counter starting at [c]. *)
Fixpoint position_of (x : uuid) (ids : list uuid) (c : Z) : option Z :=
  match ids with
  | [] => None
  | y :: rest => if decide (x = y) then Some c else position_of x rest (c + 1)
  end.

(** (p - 1) * avg_duration, NULL when the duration is. *)
Definition wait_at (avg_duration : option Z) (p : Z) : option Z :=
  (fun dur => (p - 1) * dur) <$> avg_duration.

Definition requeued (now : timestamptz) (avg_duration : option Z) (ids : list uuid)
    (c : Z) (b : Booking.row) : Booking.row :=
  match position_of (Booking.id b) ids c with
  | Some p => update_row now (Booking.with_queue (Some p) (wait_at avg_duration p)) b
  | None => b
  end.

(** Two booking rows that agree on every column except queue_position,
    estimated_wait_time and updated_at. *)
Definition same_but_queue (b b' : Booking.row) : Prop :=
  Booking.id b' = Booking.id b /\
  Booking.user_id b' = Booking.user_id b /\
  Booking.shop_id b' = Booking.shop_id b /\
  Booking.service_name b' = Booking.service_name b /\
  Booking.service_price b' = Booking.service_price b /\
  Booking.status b' = Booking.status b /\
  Booking.joined_at b' = Booking.joined_at b /\
  Booking.started_at b' = Booking.started_at b /\
  Booking.completed_at b' = Booking.completed_at b /\
  Booking.created_at b' = Booking.created_at b.

(** The arithmetic of the loop stays inside INTEGER: the counter can step
    past the last of the [n] waiting bookings, and every product fits. *)
Definition queue_fits (shop_uuid : uuid) (d : db) : Prop :=
  let n := Z.of_nat (length (filter (waiting_in shop_uuid) (bookings d))) in
  n < int4_max /\
  forall dur p,
    select_avg_service_duration shop_uuid (barber_shops d) = Some dur ->
    1 <= p <= n -> int4_min <= (p - 1) * dur <= int4_max.

(** The promise of the specification about repeated recomputes, word for
    word: a second call right after a first changes no queue position and no
    estimated wait. *)
Definition recompute_twice_is_once : Prop :=
  forall now1 now2 s d d1 d2,
    bookings_pkey d ->
    recompute_outcome now1 s d d1 ->
    recompute_outcome now2 s d1 d2 ->
    Forall2 (fun b1 b2 =>
               Booking.queue_position b2 = Booking.queue_position b1 /\
               Booking.estimated_wait_time b2 = Booking.estimated_wait_time b1)
            (bookings d1) (bookings d2).

(** Two customers who joined the queue of one shop at the same instant. *)
Module Ties.
Definition T1 := Scenario.booking 1 7 waiting 1000.
Definition T2 := Scenario.booking 2 7 waiting 1000.
Definition state : db := mkdb [] [] [Scenario.shop 7 (Some 30)] [T1; T2] [].
Definition once : db :=
  with_bookings [Scenario.queued T1 1 0 10; Scenario.queued T2 2 30 10] state.
Definition twice : db :=
  with_bookings [Scenario.queued T1 2 30 20; Scenario.queued T2 1 0 20] state.
End Ties.

(** The order on modification timestamps that are both set. *)
Definition not_before (a b : option timestamptz) : Prop :=
  match a, b with
  | Some x, Some y => x <= y
  | _, _ => False
  end.

Definition strictly_before (a b : option timestamptz) : Prop :=
  match a, b with
  | Some x, Some y => x < y
  | _, _ => False
  end.

(** The promise of the specification about the modification timestamp, word
    for word: across successive updates of a row it never decreases. *)
Definition updated_at_never_decreases : Prop :=
  forall (c1 c2 : statement_time) (set1 set2 : Booking.row -> Booking.row)
         (row : Booking.row),
    successive c1 c2 ->
    let r1 := update_row_at c1 set1 row in
    let r2 := update_row_at c2 set2 r1 in
    not_before (get_updated_at r1) (get_updated_at r2).

(** What AVG is on a list that is not empty. *)
Definition mean (xs : list Z) : Q :=
  (inject_Z (SUM xs) / inject_Z (Z.of_nat (length xs)))%Q.

(** The aggregate in the words of the specification, written without the
    queries of the routine: the review rows whose shop reference is the shop,
    and the arithmetic mean of a list of ratings. *)
Fixpoint shop_reviews (shop : uuid) (rs : list Review.row) : list Review.row :=
  match rs with
  | [] => []
  | r :: rest =>
      if decide (Review.shop_id r = shop) then r :: shop_reviews shop rest
      else shop_reviews shop rest
  end.

Definition arithmetic_mean (xs : list Z) : Q :=
  (inject_Z (fold_left Z.add xs 0%Z) / inject_Z (Z.of_nat (length xs)))%Q.

(** [h] hundredths is a nearest two-decimal value to [x]. *)
Definition rounded_to_2_places (x : Q) (h : numeric2) : Prop :=
  (x * 100 - (1 # 2) <= inject_Z h /\ inject_Z h <= x * 100 + (1 # 2))%Q.

Definition ratings_of (shop : uuid) (d : db) : list Z :=
  Review.rating <$> reviews_of shop (reviews d).

(** A shop, two customers and their reviews. *)
Module Reviewed.
Definition review (id user : uuid) (stars : Z) : Review.row :=
  Review.mk id user 7 None stars (Some "sharp fade") (Some ["clean"; "fast"]) (Some 10).
Definition state : db :=
  mkdb [AuthUser.mk 1 None; AuthUser.mk 2 None; AuthUser.mk 3 None] []
       [Scenario.shop 7 (Some 30); Scenario.shop 8 (Some 20)] []
       [review 31 1 5; review 32 2 4].
(** The same, with reviews of the other shop in between. *)
Definition elsewhere (id user : uuid) (stars : Z) : Review.row :=
  Review.mk id user 8 None stars None None (Some 11).
Definition mixed : db :=
  mkdb [AuthUser.mk 1 None; AuthUser.mk 2 None; AuthUser.mk 3 None] []
       [Scenario.shop 7 (Some 30); Scenario.shop 8 (Some 20)] []
       [review 31 1 5; elsewhere 41 1 1; review 32 2 4; elsewhere 42 2 1].
End Reviewed.

(** The two promises of the specification about repeated and failing
    profile creation, word for word: firing the routine again for an identity
    that has its profile goes through without error and leaves one profile
    row; and a failing profile insert does not fail the creation of the
    identity. *)
Definition duplicate_firing_is_silent : Prop :=
  forall now fresh new d,
    length (profiles_of (AuthUser.id new) d) = 1%nat ->
    exists d',
      handle_new_user now fresh new d = Ok d' /\
      length (profiles_of (AuthUser.id new) d') = 1%nat.

Definition profile_failure_is_contained : Prop :=
  forall now fresh new d e,
    AuthUser.id new ∉ AuthUser.id <$> auth_users d ->
    handle_new_user now fresh new (with_auth_users (auth_users d ++ [new]) d) = Raise e ->
    exists d', insert_auth_user now fresh new d = Ok d'.

(** Sign-ups. *)
Module Signup.
Definition empty : db := mkdb [] [] [] [] [].
Definition plain : AuthUser.row := AuthUser.mk 11 None.
Definition barber_al : AuthUser.row :=
  AuthUser.mk 12 (Some {[ "name" := JString "Al"; "phone" := JNull;
                          "role" := JString "barber" ]}).
Definition owner : AuthUser.row :=
  AuthUser.mk 13 (Some {[ "name" := JString "Bo"; "role" := JString "owner" ]}).
Definition after_plain : db :=
  mkdb [plain] [Profile.mk 50 11 "" (Some "") customer (Some 3) (Some 3)] [] [] [].
Definition after_al : db :=
  mkdb [barber_al] [Profile.mk 51 12 "Al" (Some "") barber (Some 4) (Some 4)] [] [] [].
End Signup.

(** ** Further vocabulary *)

(** A queue whose waits leave INTEGER: two customers and a duration that
    fits the column but not its double. *)
Module Overflow.
Definition state : db :=
  mkdb [] [] [Scenario.shop 7 (Some 2147483647)]
       [Scenario.A; Scenario.B; Scenario.C] [].
Definition E := Scenario.booking 9 7 waiting 4000.
Definition busy : db :=
  mkdb [] [] [Scenario.shop 7 (Some 2147483647)]
       [Scenario.A; Scenario.B; Scenario.C; E] [].
End Overflow.

(** Two shop rows that agree on every column except rating_avg,
    total_reviews and updated_at. *)
Definition same_but_rating (s s' : Shop.row) : Prop :=
  Shop.id s' = Shop.id s /\
  Shop.user_id s' = Shop.user_id s /\
  Shop.shop_name s' = Shop.shop_name s /\
  Shop.shop_address s' = Shop.shop_address s /\
  Shop.total_bookings s' = Shop.total_bookings s /\
  Shop.max_queue_limit s' = Shop.max_queue_limit s /\
  Shop.avg_service_duration s' = Shop.avg_service_duration s /\
  Shop.is_active s' = Shop.is_active s /\
  Shop.created_at s' = Shop.created_at s.

(** ** The pages that call the routines

    The dashboards reach the database through the REST client, as the
    signed-in identity [uid], so the row level policies of the schema apply
    to what they read and write; every call is a transaction of its own. *)

(** "Everyone can view active barber shops": USING (is_active = true). *)
Definition shop_select_policy (s : Shop.row) : bool :=
  bool_decide (Shop.is_active s = Some true).

(** EXISTS (SELECT 1 FROM public.barber_shops WHERE barber_shops.user_id =
    auth.uid() AND barber_shops.id = bookings.shop_id): the sub-select reads
    barber_shops under that table's own policy. *)
Definition owns_shop (uid shop_id : uuid) (d : db) : bool :=
  existsb (fun s => shop_select_policy s &&
                    bool_decide (Shop.user_id s = uid) &&
                    bool_decide (Shop.id s = shop_id)) (barber_shops d).

(** The two policies of public.bookings, for SELECT and for UPDATE alike:
    one's own bookings, and the bookings of one's shop. *)
Definition booking_policy (uid : uuid) (d : db) (b : Booking.row) : bool :=
  bool_decide (Booking.user_id b = uid) || owns_shop uid (Booking.shop_id b) d.

(** BarberDashboard.updateBookingStatus builds
    [updateData = { status }], plus started_at for 'in_progress' or
    completed_at for 'completed', both from the clock of the browser.  Every
    call of the page passes a label of booking_status. *)
Definition updateData (client_now : timestamptz) (status : booking_status)
    (b : Booking.row) : Booking.row :=
  Booking.mk (Booking.id b) (Booking.user_id b) (Booking.shop_id b)
    (Booking.service_name b) (Booking.service_price b) (Some status)
    (Booking.queue_position b) (Booking.estimated_wait_time b) (Booking.joined_at b)
    (match status with
     | in_progress => Some client_now
     | _ => Booking.started_at b
     end)
    (match status with
     | completed => Some client_now
     | _ => Booking.completed_at b
     end)
    (Booking.created_at b) (Booking.updated_at b).

(** supabase.from('bookings').update(..).eq('id', bookingId): the rows with
    that id which the policy lets [uid] update; rows it does not are passed
    over without an error.  An updated row is kept at its place in the list,
    as in [update_booking_queue]. *)
Definition update_bookings_by_id (now : timestamptz) (uid bookingId : uuid)
    (set : Booking.row -> Booking.row) (d : db) : db :=
  with_bookings
    ((fun b => if decide (Booking.id b = bookingId)
               then if booking_policy uid d b then update_row now set b else b
               else b) <$> bookings d) d.

(** The handler: the update, then, if the page holds a shop, the recompute
    as a second call whose outcome is not looked at.  [now1] and [now2] are
    the clocks of the two transactions. *)
Definition updateBookingStatus (now1 now2 client_now : timestamptz) (uid : uuid)
    (myShop : option Shop.row) (bookingId : uuid) (status : booking_status) (d : db)
    : db :=
  let d1 := update_bookings_by_id now1 uid bookingId (updateData client_now status) d in
  match myShop with
  | Some shop =>
      match update_queue_positions now2 (Shop.id shop) d1 with
      | Ok d2 => d2
      | Raise _ => d1
      end
  | None => d1
  end.

(** [service_price DECIMAL(10,2)], in hundredths. *)
Definition numeric_10_2 (h : numeric2) : result numeric2 :=
  if (Z.abs h <? 10000000000) then Ok h else Raise numeric_value_out_of_range.

(** The INSERT both dashboards send to public.bookings: user_id, shop_id,
    service_name, service_price and status 'waiting'; id, joined_at,
    created_at and updated_at take their defaults, queue_position,
    estimated_wait_time, started_at and completed_at stay NULL.  The row is
    inserted under the caller's own id, which is what the INSERT policy
    asks for.  The new row is put at the end of the list; a scan of the
    engine may meet it anywhere, which only the order among equal ORDER BY
    keys can show. *)
Definition insert_waiting_booking (now : timestamptz) (fresh uid shop_id : uuid)
    (service_name : text) (service_price : numeric2) (d : db) : result db :=
  do price <- numeric_10_2 service_price;
  do _ <- ensure (bool_decide (fresh ∉ Booking.id <$> bookings d)) unique_violation;
  do _ <- ensure (bool_decide (uid ∈ AuthUser.id <$> auth_users d)) foreign_key_violation;
  do _ <- ensure (bool_decide (shop_id ∈ Shop.id <$> barber_shops d)) foreign_key_violation;
  Ok (with_bookings
        (bookings d ++
         [Booking.mk fresh uid shop_id service_name (Some price) (Some waiting)
            None None (Some now) None None (Some now) (Some now)]) d).

(** CustomerDashboard.joinQueue: [Ok] is the branch of the "Booking
    Confirmed!" toast, [Raise] that of "Booking Failed"; without a signed-in
    user nothing is sent. *)
Definition joinQueue (now : timestamptz) (fresh : uuid) (user : option uuid)
    (shopId : uuid) (serviceName : text) (servicePrice : numeric2) (d : db) : result db :=
  match user with
  | None => Ok d
  | Some uid => insert_waiting_booking now fresh uid shopId serviceName servicePrice d
  end.


(** .in('status', ['waiting', 'in_progress']) *)
Definition in_queue_view (shop_id : uuid) (b : Booking.row) : Prop :=
  Booking.shop_id b = shop_id /\
  (Booking.status b = Some waiting \/ Booking.status b = Some in_progress).

Global Instance in_queue_view_dec shop_id b : Decision (in_queue_view shop_id b).
Proof. unfold in_queue_view; apply _. Defined.

(** BarberDashboard.fetchCurrentQueue: the bookings of the shop that wait or
    are being served, as far as the policy shows them, by ascending
    joined_at; each with the name and phone of the first profile of its
    user, 'Unknown Customer' and '' standing in for a missing or empty one.
    [None]: the page holds no shop and the list on screen is left alone. *)
Definition fetchCurrentQueue (uid : uuid) (myShop : option Shop.row) (d : db)
    : option (list (Booking.row * (text * text))) :=
  match myShop with
  | None => None
  | Some shop =>
      let bookings :=
        order_by Booking.joined_at
          (filter (in_queue_view (Shop.id shop))
             (filter (fun b => booking_policy uid d b = true) (bookings d))) in
      Some ((fun booking =>
               let profile := profiles_of (Booking.user_id booking) d in
               (booking,
                (match profile with
                 | p :: _ => if decide (Profile.name p = "") then "Unknown Customer"
                             else Profile.name p
                 | [] => "Unknown Customer"
                 end,
                 match profile with
                 | p :: _ => match Profile.phone p with
                             | Some ph => ph
                             | None => ""
                             end
                 | [] => ""
                 end))) <$> bookings)
  end.

(** No two bookings in the dashboard's view of the shop joined at the same
    time. *)
Definition distinct_view_times (shop_id : uuid) (bs : list Booking.row) : Prop :=
  NoDup (Booking.joined_at <$> filter (in_queue_view shop_id) bs).

(** The number the dashboard prints before entry [index] of the list. *)
Definition queue_label (index : nat) : Z := Z.of_nat index + 1.

(** BarberDashboard.fetchTodayStats reads the bookings of the shop whose
    joined_at lies between today + 'T00:00:00.000Z' and today +
    'T23:59:59.999Z', with today the UTC date of the browser's clock. *)
Definition microseconds_per_day : Z := 86400000000.

Definition today_from (client_now : timestamptz) : timestamptz :=
  client_now / microseconds_per_day * microseconds_per_day.

Definition today_until (client_now : timestamptz) : timestamptz :=
  today_from client_now + (microseconds_per_day - 1000).

Definition joined_today (client_now : timestamptz) (b : Booking.row) : bool :=
  match Booking.joined_at b with
  | Some t => (today_from client_now <=? t) && (t <=? today_until client_now)
  | None => false
  end.

(** totalBookings and servedCustomers of the day; totalIncome, a sum of
    binary floating point numbers, is not part of this model. *)
Definition fetchTodayStats (client_now : timestamptz) (uid : uuid)
    (myShop : option Shop.row) (d : db) : option (Z * Z) :=
  match myShop with
  | None => None
  | Some shop =>
      let bookings :=
        filter (fun b => Booking.shop_id b = Shop.id shop)
          (filter (fun b => joined_today client_now b = true)
             (filter (fun b => booking_policy uid d b = true) (bookings d))) in
      Some (Z.of_nat (length bookings),
            Z.of_nat (length (filter (fun b => Booking.status b = Some completed) bookings)))
  end.

(** A barber at work: shop 7 belongs to identity 107, D is in the chair, A,
    B and C wait. *)
Module Chair.
Definition D := Scenario.booking 6 7 in_progress 800.
Definition state : db :=
  mkdb [AuthUser.mk 107 None; AuthUser.mk 201 None] []
       [Scenario.shop 7 (Some 30); Scenario.shop 8 (Some 20)]
       [Scenario.C; Scenario.served; Scenario.A; D; Scenario.elsewhere; Scenario.B] [].
End Chair.

(** ** The migration that creates user_role "if it doesn't exist"

    The catalogue of enum types: a name and its labels. *)
Inductive ddl_result : Type :=
  | Created (cat : gmap string (list text))
  | duplicate_object.

(** CREATE TYPE name AS ENUM (labels) *)
Definition create_type_enum (name : string) (labels : list text)
    (cat : gmap string (list text)) : ddl_result :=
  match cat !! name with
  | Some _ => duplicate_object
  | None => Created (<[name := labels]> cat)
  end.

(** DO $$ BEGIN CREATE TYPE user_role AS ENUM ('customer', 'barber');
    EXCEPTION WHEN duplicate_object THEN null; END $$; *)
Definition create_user_role_if_missing (cat : gmap string (list text))
    : gmap string (list text) :=
  match create_type_enum "user_role" ["customer"; "barber"] cat with
  | Created cat' => cat'
  | duplicate_object => cat
  end.

(** * Properties *)

(** ** The result monad *)

Lemma bind_Ok {A B} (m : result A) (k : A -> result B) b :
  bind m k = Ok b -> exists a, m = Ok a /\ k a = Ok b.
Proof. destruct m as [a|e]; simpl; [eauto | discriminate]. Qed.

Lemma ensure_Ok c e u : ensure c e = Ok u -> c = true.
Proof. destruct c; [reflexivity | discriminate]. Qed.

Ltac inv_bind H :=
  let a := fresh "a" in
  let Ha := fresh "H" a in
  apply bind_Ok in H; destruct H as (a & Ha & H).

Tactic Notation "bind_inv" hyp(H) "as" ident(a) ident(Ha) :=
  apply bind_Ok in H; destruct H as (a & Ha & H).

Lemma int4_Ok z z' : int4 z = Ok z' -> z' = z /\ int4_min <= z <= int4_max.
Proof.
  unfold int4, in_int4. intros H.
  destruct (int4_min <=? z) eqn:E1; destruct (z <=? int4_max) eqn:E2;
    simpl in H; try discriminate.
  injection H as <-. split; [reflexivity|lia].
Qed.

Lemma int4_in z : int4_min <= z <= int4_max -> int4 z = Ok z.
Proof.
  intros [H1 H2]. unfold int4, in_int4.
  apply Z.leb_le in H1, H2. rewrite H1, H2. reflexivity.
Qed.

Example scenario_abc :
  update_queue_positions 9000 7 Scenario.state =
  Ok (with_bookings
        [Scenario.queued Scenario.C 3 60 9000; Scenario.served;
         Scenario.queued Scenario.A 1 0 9000; Scenario.elsewhere;
         Scenario.queued Scenario.B 2 30 9000] Scenario.state).
Proof. vm_compute. reflexivity. Qed.

(** ** ORDER BY *)

Section order_by_facts.
Context {A : Type} (key : A -> option timestamptz).

Lemma joined_at_le_total a b : joined_at_le a b \/ joined_at_le b a.
Proof. destruct a, b; simpl; lia. Qed.

Lemma joined_at_le_trans a b c : joined_at_le a b -> joined_at_le b c -> joined_at_le a c.
Proof. destruct a, b, c; simpl; try tauto; lia. Qed.

Lemma joined_at_le_antisym a b : joined_at_le a b -> joined_at_le b a -> a = b.
Proof. destruct a, b; simpl; try tauto. intros. f_equal. lia. Qed.

Lemma sort_insert_Permutation x l : sort_insert key x l ≡ₚ x :: l.
Proof.
  induction l as [|y l IH]; simpl; [done|].
  case_decide; [done|]. rewrite IH. apply Permutation_swap.
Qed.

Lemma order_by_Permutation l : order_by key l ≡ₚ l.
Proof.
  induction l as [|x l IH]; simpl; [done|].
  rewrite sort_insert_Permutation. by f_equiv.
Qed.

Lemma sort_insert_HdRel a x l :
  key_le key a x -> HdRel (key_le key) a l -> HdRel (key_le key) a (sort_insert key x l).
Proof.
  intros Hax Hl. destruct l as [|y l]; simpl; [by constructor|].
  case_decide; constructor; [done|]. by inversion Hl.
Qed.

Lemma sort_insert_Sorted x l :
  Sorted (key_le key) l -> Sorted (key_le key) (sort_insert key x l).
Proof.
  induction 1 as [|y l Hs IH Hhd]; simpl; [by repeat constructor|].
  case_decide as Hxy.
  - constructor; [by constructor|by constructor].
  - constructor; [done|]. apply sort_insert_HdRel; [|done].
    unfold key_le in *. by destruct (joined_at_le_total (key x) (key y)).
Qed.

Lemma order_by_Sorted l : Sorted (key_le key) (order_by key l).
Proof. induction l; simpl; [constructor|by apply sort_insert_Sorted]. Qed.

Lemma order_by_length l : length (order_by key l) = length l.
Proof. by rewrite order_by_Permutation. Qed.

(** Where no two rows share a key, the sorted order is the only one there
  is: the choice made for ties decides nothing. *)
Lemma order_by_unique l q :
(forall x y, x ∈ l -> y ∈ l -> key x = key y -> x = y) ->
q ≡ₚ l -> Sorted (key_le key) q -> q = order_by key l.
Proof.
intros Hinj Hperm Hsorted.
assert (Htrans : Transitive (key_le key)).
{ intros x y z. unfold key_le. apply joined_at_le_trans. }
apply (StronglySorted_unique_strong (key_le key)).
- intros x y Hx Hy Hxy Hyx. apply Hinj.
  + by rewrite <- Hperm.
  + by rewrite <- (order_by_Permutation l).
  + by apply joined_at_le_antisym.
- by apply Sorted_StronglySorted.
- apply Sorted_StronglySorted; [done|]. apply order_by_Sorted.
- by rewrite order_by_Permutation.
Qed.

(** Rewriting rows without touching the sort key commutes with the sort. *)
Lemma sort_insert_fmap (f : A -> A) x l :
  (forall y, key (f y) = key y) ->
  sort_insert key (f x) (f <$> l) = f <$> sort_insert key x l.
Proof.
  intros Hf. induction l as [|y l IH]; [done|].
  rewrite fmap_cons. cbn [sort_insert]. unfold key_le. rewrite !Hf.
  destruct (decide (joined_at_le (key x) (key y))); [done|].
  by rewrite IH, fmap_cons.
Qed.

Lemma order_by_fmap (f : A -> A) l :
  (forall y, key (f y) = key y) ->
  order_by key (f <$> l) = f <$> order_by key l.
Proof.
  intros Hf. induction l as [|x l IH]; [done|].
  rewrite fmap_cons. cbn [order_by]. by rewrite IH, sort_insert_fmap.
Qed.
End order_by_facts.

(** ** The queue recompute procedure *)

Lemma filter_fmap_stable {A} (P : A -> Prop) `{!forall x, Decision (P x)} (f : A -> A)
    (l : list A) :
  (forall x, P (f x) <-> P x) -> filter P (f <$> l) = f <$> filter P l.
Proof.
  intros Hf. induction l as [|x l IH]; [done|].
  rewrite fmap_cons. destruct (decide (P x)) as [Hx|Hx].
  - rewrite (filter_cons_True P (f x)) by (by apply Hf).
    rewrite (filter_cons_True P x) by done. by rewrite fmap_cons, IH.
  - rewrite (filter_cons_False P (f x)) by (by rewrite Hf).
    by rewrite (filter_cons_False P x).
Qed.

Lemma position_of_None x ids c : x ∉ ids -> position_of x ids c = None.
Proof.
  revert c. induction ids as [|y ids IH]; intros c Hx; simpl; [done|].
  apply not_elem_of_cons in Hx as [Hne Hx].
  rewrite decide_False by done. by apply IH.
Qed.

Lemma position_of_lookup x ids c i :
  NoDup ids -> ids !! i = Some x -> position_of x ids c = Some (c + Z.of_nat i).
Proof.
  revert c i. induction ids as [|y ids IH]; intros c i Hnd Hi; [done|].
  apply NoDup_cons in Hnd as [Hy Hnd]. simpl.
  destruct i as [|i]; simpl in Hi.
  - injection Hi as ->. rewrite decide_True by done. f_equal; lia.
  - rewrite decide_False.
    + rewrite (IH (c + 1) i) by done. f_equal; lia.
    + intros ->. apply Hy. by eapply list_elem_of_lookup_2.
Qed.

Lemma requeued_same_but_queue now avg ids c b : same_but_queue b (requeued now avg ids c b).
Proof. unfold requeued, same_but_queue. destruct (position_of _ _ _); simpl; tauto. Qed.

Lemma requeued_id now avg ids c b : Booking.id (requeued now avg ids c b) = Booking.id b.
Proof. apply requeued_same_but_queue. Qed.

Lemma requeued_joined_at now avg ids c b :
  Booking.joined_at (requeued now avg ids c b) = Booking.joined_at b.
Proof. apply requeued_same_but_queue. Qed.

Lemma requeued_waiting_in now avg ids c s b :
  waiting_in s (requeued now avg ids c b) <-> waiting_in s b.
Proof.
  destruct (requeued_same_but_queue now avg ids c b) as (_ & _ & Hs & _ & _ & Hst & _).
  unfold waiting_in. by rewrite Hs, Hst.
Qed.

(** The loop, read off as one rewriting of the table. *)
Lemma queue_loop_Ok now avg ids c bs bs' :
  NoDup ids ->
  queue_loop now avg ids c bs = Ok bs' ->
  bs' = requeued now avg ids c <$> bs.
Proof.
  revert c bs. induction ids as [|x rest IH]; intros c bs Hnd H.
  - injection H as <-. unfold requeued; simpl. by rewrite list_fmap_id.
  - apply NoDup_cons in Hnd as [Hx Hnd]. cbn [queue_loop] in H.
    inv_bind H. inv_bind H. inv_bind H.
    simpl in Ha. inv_bind Ha. apply int4_Ok in Ha1 as [-> _]. injection Ha as <-.
    apply int4_Ok in Ha2 as [-> _].
    apply IH in H; [|done]. subst bs'.
    unfold update_booking_queue. rewrite <- list_fmap_compose.
    apply list_fmap_ext. intros _ b _. unfold compose, requeued. simpl.
    assert (a0 = wait_at avg c) as ->.
    { unfold wait_at. destruct avg as [dur|]; simpl in Ha0.
      - inv_bind Ha0. apply int4_Ok in Ha as [-> _]. by injection Ha0 as <-.
      - by injection Ha0 as <-. }
    destruct (decide _) as [Heq|Hne]; [|done].
    simpl. rewrite Heq. by rewrite position_of_None.
Qed.

(** Whether the loop raises is a matter of its counter and the duration, not
    of the rows or the clock. *)
Lemma queue_loop_Ok_any now avg ids c bs bs' now2 bs2 :
  queue_loop now avg ids c bs = Ok bs' ->
  exists bs2', queue_loop now2 avg ids c bs2 = Ok bs2'.
Proof.
  revert c bs bs2. induction ids as [|x rest IH]; intros c bs bs2 H.
  - simpl. eauto.
  - cbn [queue_loop] in H |- *. inv_bind H. inv_bind H. inv_bind H.
    rewrite Ha; cbn [bind]. rewrite Ha0; cbn [bind]. rewrite Ha1; cbn [bind]. eauto.
Qed.

Lemma queue_loop_fits now avg ids c bs :
  1 <= c ->
  c + Z.of_nat (length ids) <= int4_max ->
  (forall dur p, avg = Some dur -> c <= p < c + Z.of_nat (length ids) ->
     int4_min <= (p - 1) * dur <= int4_max) ->
  exists bs', queue_loop now avg ids c bs = Ok bs'.
Proof.
  revert c bs. induction ids as [|x rest IH]; intros c bs Hc Hlen Hfit.
  - simpl. eauto.
  - cbn [queue_loop]. simpl in Hlen.
    assert (Hmin : int4_min = -2147483648) by reflexivity.
    assert (Hmax : int4_max = 2147483647) by reflexivity.
    unfold int4mi. rewrite (int4_in (c - 1)) by lia. cbn [bind].
    assert (exists w, int4mul (Some (c - 1)) avg = Ok w) as [w ->].
    { destruct avg as [dur|]; simpl; [|eauto].
      rewrite int4_in; simpl; [eauto|]. apply Hfit; [done|simpl; lia]. }
    cbn [bind]. rewrite (int4_in (c + 1)) by lia. cbn [bind].
    apply IH; [lia|lia|].
    intros dur p Hd Hp. apply Hfit; [done|simpl; lia].
Qed.

Lemma waiting_ids_NoDup s d :
  bookings_pkey d -> NoDup (Booking.id <$> waiting_queue s (bookings d)).
Proof.
  intros Hpk. unfold waiting_queue. rewrite order_by_Permutation.
  eapply sublist_NoDup; [exact Hpk|]. apply fmap_sublist, sublist_filter.
Qed.

Lemma update_queue_positions_Ok now s d d' :
  bookings_pkey d ->
  update_queue_positions now s d = Ok d' ->
  d' = with_bookings
         (requeued now (select_avg_service_duration s (barber_shops d))
            (Booking.id <$> waiting_queue s (bookings d)) 1 <$> bookings d) d.
Proof.
  intros Hpk H. unfold update_queue_positions in H. inv_bind H.
  injection H as <-. f_equal.
  eapply queue_loop_Ok; [|done]. by apply waiting_ids_NoDup.
Qed.

Lemma update_queue_positions_fits now s d :
  queue_fits s d -> exists d', update_queue_positions now s d = Ok d'.
Proof.
  intros [Hn Hfit]. unfold update_queue_positions.
  destruct (queue_loop_fits now (select_avg_service_duration s (barber_shops d))
              (Booking.id <$> waiting_queue s (bookings d)) 1 (bookings d))
    as [bs' Hbs'].
  - lia.
  - unfold waiting_queue. rewrite length_fmap, order_by_length. lia.
  - unfold waiting_queue. rewrite length_fmap, order_by_length.
    intros dur p Hd Hp. apply Hfit; [done|lia].
  - rewrite Hbs'. simpl. eauto.
Qed.

Lemma waiting_queue_requeued now avg ids c s bs :
  waiting_queue s (requeued now avg ids c <$> bs) =
  requeued now avg ids c <$> waiting_queue s bs.
Proof.
  unfold waiting_queue.
  rewrite filter_fmap_stable by (intros; apply requeued_waiting_in).
  apply order_by_fmap. intros; apply requeued_joined_at.
Qed.

(** With pairwise distinct join times among the waiting bookings of a shop,
    any listing of them in ascending join order is the queue of the model. *)
Lemma waiting_queue_unique s (bs q : list Booking.row) :
  (forall b1 b2, b1 ∈ bs -> b2 ∈ bs -> waiting_in s b1 -> waiting_in s b2 ->
     Booking.joined_at b1 = Booking.joined_at b2 -> b1 = b2) ->
  q ≡ₚ filter (waiting_in s) bs ->
  Sorted (key_le Booking.joined_at) q ->
  q = waiting_queue s bs.
Proof.
  intros Hinj Hperm Hsorted. apply order_by_unique; [|done|done].
  intros b1 b2 Hb1 Hb2. apply list_elem_of_filter in Hb1 as [Hw1 Hb1].
  apply list_elem_of_filter in Hb2 as [Hw2 Hb2]. by apply Hinj.
Qed.

(** The queue after the call is the queue before it, row by row, with the
    place in the queue written into each row. *)
Lemma queue_after now s d d' i b' :
  bookings_pkey d ->
  update_queue_positions now s d = Ok d' ->
  waiting_queue s (bookings d') !! i = Some b' ->
  exists b,
    waiting_queue s (bookings d) !! i = Some b /\
    b' = update_row now
           (Booking.with_queue (Some (1 + Z.of_nat i))
              (wait_at (select_avg_service_duration s (barber_shops d)) (1 + Z.of_nat i))) b.
Proof.
  intros Hpk H Hi. apply update_queue_positions_Ok in H; [|done]. subst d'.
  simpl in Hi. rewrite waiting_queue_requeued in Hi.
  apply list_lookup_fmap_Some in Hi as (b & -> & Hb).
  exists b. split; [done|]. unfold requeued.
  rewrite (position_of_lookup _ _ 1 i); [done|by apply waiting_ids_NoDup|].
  by rewrite list_lookup_fmap, Hb.
Qed.

Lemma select_avg_of_shop (S : Shop.row) ss :
  NoDup (Shop.id <$> ss) -> S ∈ ss ->
  select_avg_service_duration (Shop.id S) ss = Shop.avg_service_duration S.
Proof.
  unfold select_avg_service_duration.
  induction ss as [|x ss IH]; intros Hnd Hin; [by apply elem_of_nil in Hin|].
  rewrite fmap_cons in Hnd. apply NoDup_cons in Hnd as [Hx Hnd].
  apply elem_of_cons in Hin as [->|Hin].
  - by rewrite filter_cons_True.
  - rewrite filter_cons_False; [by apply IH|].
    intros Heq. apply Hx. rewrite Heq. by apply list_elem_of_fmap_2.
Qed.

Lemma queue_positions_seq now s d d' :
  bookings_pkey d ->
  update_queue_positions now s d = Ok d' ->
  Booking.queue_position <$> waiting_queue s (bookings d') =
  Some <$> seqZ 1 (Z.of_nat (length (waiting_queue s (bookings d')))).
Proof.
  intros Hpk H. apply list_eq. intros i.
  rewrite !list_lookup_fmap.
  destruct (waiting_queue s (bookings d') !! i) as [b'|] eqn:Hi; simpl.
  - pose proof (lookup_lt_Some _ _ _ Hi) as Hlt.
    destruct (queue_after _ _ _ _ _ _ Hpk H Hi) as (b & _ & ->).
    rewrite lookup_seqZ_lt by lia. done.
  - apply lookup_ge_None in Hi. rewrite lookup_seqZ_ge by lia. done.
Qed.

Lemma pkey_inj {A} (f : A -> uuid) (l : list A) x y :
  NoDup (f <$> l) -> x ∈ l -> y ∈ l -> f x = f y -> x = y.
Proof.
  induction l as [|z l IH]; intros Hnd Hx Hy Hf; [by apply elem_of_nil in Hx|].
  rewrite fmap_cons in Hnd. apply NoDup_cons in Hnd as [Hz Hnd].
  apply elem_of_cons in Hx as [->|Hx]; apply elem_of_cons in Hy as [->|Hy].
  - done.
  - exfalso. apply Hz. rewrite Hf. by apply list_elem_of_fmap_2.
  - exfalso. apply Hz. rewrite <- Hf. by apply list_elem_of_fmap_2.
  - by apply IH.
Qed.

Lemma requeued_not_waiting now avg c s d b :
  bookings_pkey d -> b ∈ bookings d -> ~ waiting_in s b ->
  requeued now avg (Booking.id <$> waiting_queue s (bookings d)) c b = b.
Proof.
  intros Hpk Hb Hnw. unfold requeued. rewrite position_of_None; [done|].
  intros Hin. apply list_elem_of_fmap in Hin as (b0 & Hid & Hb0).
  unfold waiting_queue in Hb0. rewrite order_by_Permutation in Hb0.
  apply list_elem_of_filter in Hb0 as [Hw Hb0].
  assert (b = b0) as -> by (by eapply (pkey_inj Booking.id)).
  done.
Qed.

Lemma position_of_waiting c s d b :
  waiting_in s b -> b ∈ bookings d ->
  exists p, position_of (Booking.id b) (Booking.id <$> waiting_queue s (bookings d)) c = Some p.
Proof.
  intros Hw Hb.
  destruct (position_of _ _ _) as [p|] eqn:Hp; [eauto|]. exfalso.
  assert (Hin : Booking.id b ∈ Booking.id <$> waiting_queue s (bookings d)).
  { apply list_elem_of_fmap_2. unfold waiting_queue. rewrite order_by_Permutation.
    by apply list_elem_of_filter. }
  clear Hw Hb. revert c Hp.
  induction (Booking.id <$> waiting_queue s (bookings d)) as [|y ids IH]; intros c Hp.
  - by apply elem_of_nil in Hin.
  - simpl in Hp. destruct (decide _) as [|Hne]; [done|].
    apply elem_of_cons in Hin as [?|Hin]; [done|]. by eapply IH.
Qed.

(** The second of two calls in a row runs the same loop over the same ids. *)
Lemma update_queue_positions_again now1 now2 s d d1 :
  bookings_pkey d ->
  update_queue_positions now1 s d = Ok d1 ->
  update_queue_positions now2 s d1 =
  Ok (with_bookings
        (requeued now2 (select_avg_service_duration s (barber_shops d))
           (Booking.id <$> waiting_queue s (bookings d)) 1 <$> bookings d1) d1).
Proof.
  intros Hpk H.
  pose proof (update_queue_positions_Ok _ _ _ _ Hpk H) as Hd1.
  unfold update_queue_positions in H. inv_bind H. clear H.
  assert (Hids : Booking.id <$> waiting_queue s (bookings d1) =
                 Booking.id <$> waiting_queue s (bookings d)).
  { rewrite Hd1. simpl. rewrite waiting_queue_requeued, <- list_fmap_compose.
    apply list_fmap_ext. intros _ b _. apply requeued_id. }
  assert (Hss : barber_shops d1 = barber_shops d) by (by rewrite Hd1).
  unfold update_queue_positions. rewrite Hids, Hss.
  destruct (queue_loop_Ok_any _ _ _ _ _ _ now2 (bookings d1) Ha) as [bs2 Hbs2].
  rewrite Hbs2. simpl. do 2 f_equal.
  eapply queue_loop_Ok; [|done]. by apply waiting_ids_NoDup.
Qed.

Lemma requeued_twice now1 now2 avg ids c b :
  let b1 := requeued now1 avg ids c b in
  let b2 := requeued now2 avg ids c b1 in
  Booking.queue_position b2 = Booking.queue_position b1 /\
  Booking.estimated_wait_time b2 = Booking.estimated_wait_time b1 /\
  same_but_queue b1 b2 /\
  (now2 = now1 -> b2 = b1).
Proof.
  unfold requeued, same_but_queue.
  destruct (position_of (Booking.id b) ids c) as [p|] eqn:Hp; simpl.
  - rewrite Hp. simpl. repeat split. by intros ->.
  - rewrite Hp. repeat split.
Qed.

Ltac by_compute := apply (bool_decide_unpack _); vm_compute; exact I.



(** C8. When the shop has no configured average service duration (NULL), the
    recompute still numbers the waiting bookings of the shop, all of them and
    no others, 1..N in join order, and the product degrades to NULL: every
    waiting booking gets a NULL estimated wait, not 0.  With a NULL duration
    the call completes for any queue short of the INTEGER range. *)
Theorem recompute_null_duration_gives_null_waits now (S : Shop.row) d :
  bookings_pkey d -> barber_shops_pkey d -> S ∈ barber_shops d ->
  Shop.avg_service_duration S = None ->
  (Z.of_nat (length (filter (waiting_in (Shop.id S)) (bookings d))) < int4_max ->
   exists d', update_queue_positions now (Shop.id S) d = Ok d') /\
  (forall d', update_queue_positions now (Shop.id S) d = Ok d' ->
     let q := waiting_queue (Shop.id S) (bookings d') in
     q ≡ₚ filter (waiting_in (Shop.id S)) (bookings d') /\
     length q = length (filter (waiting_in (Shop.id S)) (bookings d)) /\
     Sorted (key_le Booking.joined_at) q /\
     Booking.queue_position <$> q = Some <$> seqZ 1 (Z.of_nat (length q)) /\
     Forall (fun b => Booking.estimated_wait_time b = None) q /\
     forall p b, 1 <= p -> q !! Z.to_nat (p - 1) = Some b ->
       Booking.queue_position b = Some p /\
       Booking.estimated_wait_time b = None).
Proof.
  intros Hpk Hspk HS Hnull.
  pose proof (select_avg_of_shop S _ Hspk HS) as Havg. rewrite Hnull in Havg.
  split.
  - intros Hn. apply update_queue_positions_fits. split; [done|].
    intros dur p Hd. by rewrite Havg in Hd.
  - intros d' H q. subst q.
    split; [apply order_by_Permutation|]. split.
    { rewrite (update_queue_positions_Ok _ _ _ _ Hpk H). cbn [bookings with_bookings].
      rewrite waiting_queue_requeued, length_fmap. apply order_by_length. }
    split; [apply order_by_Sorted|]. split; [by eapply queue_positions_seq|]. split.
    + apply Forall_lookup. intros i b Hi.
      destruct (queue_after _ _ _ _ _ _ Hpk H Hi) as (b0 & _ & ->).
      simpl. by rewrite Havg.
    + intros p b Hp Hi.
      destruct (queue_after _ _ _ _ _ _ Hpk H Hi) as (b0 & _ & ->).
      simpl. rewrite Havg. split; [f_equal; lia|done].
Qed.

Lemma recompute_null_duration_gives_null_waits_witness :
  exists d',
    update_queue_positions 9000 7 Scenario.state_no_duration = Ok d' /\
    let q := waiting_queue 7 (bookings d') in
    q ≡ₚ filter (waiting_in 7) (bookings d') /\
    length q = 3%nat /\
    Sorted (key_le Booking.joined_at) q /\
    Booking.queue_position <$> q = Some <$> seqZ 1 (Z.of_nat (length q)) /\
    Forall (fun b => Booking.estimated_wait_time b = None) q /\
    forall p b, 1 <= p -> q !! Z.to_nat (p - 1) = Some b ->
      Booking.queue_position b = Some p /\
      Booking.estimated_wait_time b = None.
Proof.
  assert (Hpk : bookings_pkey Scenario.state_no_duration) by by_compute.
  assert (Hspk : barber_shops_pkey Scenario.state_no_duration) by by_compute.
  assert (HS : Scenario.shop 7 None ∈ barber_shops Scenario.state_no_duration)
    by (simpl; constructor).
  destruct (recompute_null_duration_gives_null_waits 9000 (Scenario.shop 7 None)
              Scenario.state_no_duration Hpk Hspk HS eq_refl) as [Hruns Hpost].
  destruct Hruns as [d' Hd']; [vm_compute; reflexivity|].
  exists d'. split; [exact Hd'|]. exact (Hpost d' Hd').
Defined.

Example scenario_no_duration :
  update_queue_positions 9000 7 Scenario.state_no_duration =
  Ok (with_bookings
        [Booking.with_updated_at (Some 9000) (Booking.with_queue (Some 3) None Scenario.C);
         Scenario.served;
         Booking.with_updated_at (Some 9000) (Booking.with_queue (Some 1) None Scenario.A);
         Scenario.elsewhere;
         Booking.with_updated_at (Some 9000) (Booking.with_queue (Some 2) None Scenario.B)]
        Scenario.state_no_duration).
Proof. vm_compute. reflexivity. Qed.

(** *** Answers to the query of the loop *)

Lemma NoDup_fmap_inj {A B} (f : A -> B) (l : list A) x y :
  NoDup (f <$> l) -> x ∈ l -> y ∈ l -> f x = f y -> x = y.
Proof.
  induction l as [|z l IH]; intros Hnd Hx Hy Hf; [by apply elem_of_nil in Hx|].
  rewrite fmap_cons in Hnd. apply NoDup_cons in Hnd as [Hz Hnd].
  apply elem_of_cons in Hx as [->|Hx]; apply elem_of_cons in Hy as [->|Hy].
  - done.
  - exfalso. apply Hz. rewrite Hf. by apply list_elem_of_fmap_2.
  - exfalso. apply Hz. rewrite <- Hf. by apply list_elem_of_fmap_2.
  - by apply IH.
Qed.

Lemma waiting_queue_answer s bs : queue_answer s bs (waiting_queue s bs).
Proof. split; [apply order_by_Permutation|apply order_by_Sorted]. Qed.

(** Without ties the query has one answer. *)
Lemma queue_answer_unique s bs a :
  distinct_join_times s bs -> queue_answer s bs a -> a = waiting_queue s bs.
Proof.
  intros Hd [Hp Hs]. apply waiting_queue_unique; [|done|done].
  intros b1 b2 Hb1 Hb2 Hw1 Hw2.
  apply (NoDup_fmap_inj Booking.joined_at (filter (waiting_in s) bs)); [done| |];
    by apply list_elem_of_filter.
Qed.

Lemma distinct_join_times_queue s bs :
  distinct_join_times s bs <-> NoDup (Booking.joined_at <$> waiting_queue s bs).
Proof.
  unfold distinct_join_times, waiting_queue. by rewrite order_by_Permutation.
Qed.

Lemma distinct_join_times_requeued now avg ids c s bs :
  distinct_join_times s (requeued now avg ids c <$> bs) <-> distinct_join_times s bs.
Proof.
  unfold distinct_join_times.
  rewrite filter_fmap_stable by (intros; apply requeued_waiting_in).
  rewrite <- list_fmap_compose.
  replace ((Booking.joined_at ∘ requeued now avg ids c) <$> filter (waiting_in s) bs)
    with (Booking.joined_at <$> filter (waiting_in s) bs); [done|].
  apply list_fmap_ext. intros _ x _. symmetry. apply requeued_joined_at.
Qed.

Lemma update_queue_positions_outcome now s d d' :
  update_queue_positions now s d = Ok d' -> recompute_outcome now s d d'.
Proof.
  intros H. exists (waiting_queue s (bookings d)).
  split; [apply waiting_queue_answer|exact H].
Qed.

Lemma recompute_outcome_unique now s d d' :
  distinct_join_times s (bookings d) ->
  recompute_outcome now s d d' -> update_queue_positions now s d = Ok d'.
Proof.
  intros Hd (q & Hq & H). by rewrite (queue_answer_unique _ _ _ Hd Hq) in H.
Qed.

(** C3, as the specification words it, fails where two waiting bookings of
    the shop joined at the same instant: the query of the loop may list them
    in either order, and nothing makes two calls choose alike.  The first
    call numbers T1 before T2, the second T2 before T1: positions and waits
    of both change. *)
Lemma recompute_twice_can_differ : ~ recompute_twice_is_once.
Proof.
  intros Hc.
  specialize (Hc 10 20 7 Ties.state Ties.once Ties.twice).
  assert (H12 : Forall2 (fun b1 b2 =>
                  Booking.queue_position b2 = Booking.queue_position b1 /\
                  Booking.estimated_wait_time b2 = Booking.estimated_wait_time b1)
                (bookings Ties.once) (bookings Ties.twice)).
  { apply Hc.
    - by_compute.
    - exists [Ties.T1; Ties.T2]. split; [split|].
      + reflexivity.
      + by_compute.
      + vm_compute. reflexivity.
    - exists [Scenario.queued Ties.T2 2 30 10; Scenario.queued Ties.T1 1 0 10].
      split; [split|].
      + apply Permutation_swap.
      + by_compute.
      + vm_compute. reflexivity. }
  apply Forall2_cons_1 in H12 as [[Hpos _] _]. vm_compute in Hpos. discriminate Hpos.
Qed.

(** C3, amended. Where no two waiting bookings of the shop joined at the
    same time, the queue recompute is idempotent: right after one completed
    call a second call completes too, and whatever answer its query gives it
    changes no queue position and no estimated wait.  The only column the
    second call can move is updated_at, which the touch trigger sets to the
    clock of the second transaction; under the same clock the two states are
    equal. *)
Theorem recompute_is_idempotent_without_ties now1 now2 s d d1 :
  bookings_pkey d ->
  distinct_join_times s (bookings d) ->
  recompute_outcome now1 s d d1 ->
  (exists d2, recompute_outcome now2 s d1 d2) /\
  (forall d2, recompute_outcome now2 s d1 d2 ->
     Forall2 (fun b1 b2 =>
                Booking.queue_position b2 = Booking.queue_position b1 /\
                Booking.estimated_wait_time b2 = Booking.estimated_wait_time b1 /\
                same_but_queue b1 b2)
             (bookings d1) (bookings d2) /\
     with_bookings (bookings d1) d2 = d1 /\
     (now2 = now1 -> d2 = d1)).
Proof.
  intros Hpk Hdist H1.
  apply recompute_outcome_unique in H1; [|done].
  pose proof (update_queue_positions_again now1 now2 _ _ _ Hpk H1) as H2.
  pose proof (update_queue_positions_Ok _ _ _ _ Hpk H1) as Hd1.
  set (avg := select_avg_service_duration s (barber_shops d)) in *.
  set (ids := Booking.id <$> waiting_queue s (bookings d)) in *.
  assert (Hbs : bookings d1 = requeued now1 avg ids 1 <$> bookings d)
    by (by rewrite Hd1).
  assert (Hdist1 : distinct_join_times s (bookings d1)).
  { rewrite Hbs. by apply (proj2 (distinct_join_times_requeued _ _ _ _ _ _)). }
  split; [eexists; apply update_queue_positions_outcome; exact H2|].
  intros d2 Hout. apply recompute_outcome_unique in Hout; [|done].
  rewrite H2 in Hout. injection Hout as <-.
  repeat split.
  - simpl. apply Forall2_fmap_r, Forall_Forall2_diag, Forall_forall.
    intros b1 Hb1. rewrite Hbs in Hb1.
    apply list_elem_of_fmap in Hb1 as (b & -> & _).
    pose proof (requeued_twice now1 now2 avg ids 1 b) as Ht. simpl in Ht.
    unfold compose. tauto.
  - by destruct d1.
  - intros ->. destruct d1 as [us ps ss bs rs]. unfold with_bookings. simpl in *.
    f_equal. rewrite Hbs, <- list_fmap_compose.
    apply list_fmap_ext. intros _ b _.
    pose proof (requeued_twice now1 now1 avg ids 1 b) as Ht. simpl in Ht.
    by apply Ht.
Qed.

Lemma recompute_is_idempotent_without_ties_witness :
  let once :=
    with_bookings
      [Scenario.queued Scenario.C 3 60 9000; Scenario.served;
       Scenario.queued Scenario.A 1 0 9000; Scenario.elsewhere;
       Scenario.queued Scenario.B 2 30 9000] Scenario.state in
  (exists d2, recompute_outcome 9500 7 once d2) /\
  (forall d2, recompute_outcome 9500 7 once d2 ->
     Forall2 (fun b1 b2 =>
                Booking.queue_position b2 = Booking.queue_position b1 /\
                Booking.estimated_wait_time b2 = Booking.estimated_wait_time b1 /\
                same_but_queue b1 b2)
             (bookings once) (bookings d2)).
Proof.
  intros once.
  assert (Hpk : bookings_pkey Scenario.state) by by_compute.
  assert (Hdist : distinct_join_times 7 (bookings Scenario.state)) by by_compute.
  assert (Hout : recompute_outcome 9000 7 Scenario.state once)
    by (apply update_queue_positions_outcome; exact scenario_abc).
  destruct (recompute_is_idempotent_without_ties 9000 9500 7 Scenario.state once
              Hpk Hdist Hout) as [Hex Hall].
  split; [exact Hex|]. intros d2 Hd2. exact (proj1 (Hall d2 Hd2)).
Defined.

(** C10. The queue recompute writes nothing but queue_position,
    estimated_wait_time and (through the touch trigger) updated_at, and only
    in bookings of the given shop whose status is waiting: every other table
    is untouched, every booking keeps all its other columns, and a booking of
    another shop or in another status is left exactly as it was. *)
Theorem recompute_frame now s d d' :
  bookings_pkey d ->
  update_queue_positions now s d = Ok d' ->
  auth_users d' = auth_users d /\
  profiles d' = profiles d /\
  barber_shops d' = barber_shops d /\
  reviews d' = reviews d /\
  Forall2 (fun b b' =>
             same_but_queue b b' /\
             (~ waiting_in s b -> b' = b) /\
             (waiting_in s b -> Booking.updated_at b' = Some now))
          (bookings d) (bookings d').
Proof.
  intros Hpk H. apply update_queue_positions_Ok in H; [|done]. subst d'.
  simpl. repeat split.
  apply Forall2_fmap_r, Forall_Forall2_diag, Forall_forall.
  intros b Hb. repeat split; try apply requeued_same_but_queue.
  - intros Hnw. by apply requeued_not_waiting.
  - intros Hw. unfold requeued.
    destruct (position_of_waiting 1 s d b Hw Hb) as [p ->]. done.
Qed.

Lemma recompute_frame_witness :
  Forall2 (fun b b' =>
             same_but_queue b b' /\
             (~ waiting_in 7 b -> b' = b) /\
             (waiting_in 7 b -> Booking.updated_at b' = Some 9000))
          (bookings Scenario.state)
          [Scenario.queued Scenario.C 3 60 9000; Scenario.served;
           Scenario.queued Scenario.A 1 0 9000; Scenario.elsewhere;
           Scenario.queued Scenario.B 2 30 9000].
Proof.
  assert (Hpk : bookings_pkey Scenario.state) by by_compute.
  exact (proj2 (proj2 (proj2 (proj2
    (recompute_frame 9000 7 Scenario.state _ Hpk scenario_abc))))).
Defined.

(** ** The timestamp touch trigger *)

(** C4, as the specification words it, fails: now() is the start of the
    transaction, not the time of the statement.  A booking is updated at
    wall-clock time 250 in a transaction begun at 200, then at 300 in a
    transaction begun at 100: its updated_at goes from 200 back to 100. *)
Lemma updated_at_can_decrease : ~ updated_at_never_decreases.
Proof.
  intros Hc.
  specialize (Hc (mk_statement_time 200 250) (mk_statement_time 100 300)
                 (Booking.with_queue (Some 1) (Some 0))
                 (Booking.with_queue (Some 2) (Some 30)) Scenario.A).
  cbv zeta in Hc. vm_compute in Hc. apply Hc; [| reflexivity].
  repeat split; intros Hgt; discriminate Hgt.
Qed.

(** C4, amended. On every update of a row of profiles, barber_shops or
    bookings the touch trigger overwrites updated_at with now(), the start
    time of the updating transaction, whatever the caller put there, and
    touches no other column.  So over two successive updates of a row
    updated_at follows the start times of the two transactions: it does not
    decrease exactly when the second started no earlier than the first, grows
    exactly when it started later, stays when both have the same start, and
    goes back when the second transaction started earlier. *)
Theorem touch_trigger_stamps_transaction_start {R : Type} `{HasUpdatedAt R}
    (c1 c2 : statement_time) (set1 set2 : R -> R) (row : R) :
  let r1 := update_row_at c1 set1 row in
  let r2 := update_row_at c2 set2 r1 in
  get_updated_at r1 = Some (started c1) /\
  get_updated_at r2 = Some (started c2) /\
  (forall t, set_updated_at t r1 = set_updated_at t (set1 row)) /\
  (forall t, set_updated_at t r2 = set_updated_at t (set2 r1)) /\
  (not_before (get_updated_at r1) (get_updated_at r2) <-> started c1 <= started c2) /\
  (strictly_before (get_updated_at r1) (get_updated_at r2) <-> started c1 < started c2) /\
  (get_updated_at r2 = get_updated_at r1 <-> started c2 = started c1) /\
  (strictly_before (get_updated_at r2) (get_updated_at r1) <-> started c2 < started c1).
Proof.
  intros r1 r2. subst r1 r2. unfold update_row_at, update_row, update_updated_at_column.
  rewrite !get_set_updated_at. cbn [not_before strictly_before].
  split; [done|]. split; [done|].
  split; [intros t; apply set_set_updated_at|].
  split; [intros t; apply set_set_updated_at|].
  split; [done|]. split; [done|]. split; [|done].
  split; [by intros [= ->]|by intros ->].
Qed.

Lemma touch_trigger_stamps_transaction_start_witness :
  let far_future := Booking.with_updated_at (Some 4102444800000000) in
  let back_to_zero := Booking.with_updated_at (Some 0) in
  let r1 := update_row_at (mk_statement_time 200 250) far_future Scenario.A in
  let r2 := update_row_at (mk_statement_time 100 300) back_to_zero r1 in
  Booking.updated_at r1 = Some 200 /\
  Booking.updated_at r2 = Some 100 /\
  strictly_before (Booking.updated_at r2) (Booking.updated_at r1).
Proof.
  intros far_future back_to_zero r1 r2.
  destruct (touch_trigger_stamps_transaction_start
              (mk_statement_time 200 250) (mk_statement_time 100 300)
              far_future back_to_zero Scenario.A)
    as (H1 & H2 & _ & _ & _ & _ & _ & Hback).
  split; [exact H1|]. split; [exact H2|]. apply Hback. reflexivity.
Defined.

(** ** The rating aggregation trigger *)

Lemma ROUND2_nearest x : rounded_to_2_places x (ROUND2 x).
Proof.
  unfold rounded_to_2_places, ROUND2. cbv zeta.
  destruct (Qle_bool 0 (x * 100)).
  - pose proof (Qfloor_le (x * 100 + (1 # 2))) as Hlo.
    pose proof (Qlt_floor (x * 100 + (1 # 2))) as Hhi.
    rewrite inject_Z_plus in Hhi. change (inject_Z 1) with 1%Q in Hhi.
    split; lra.
  - pose proof (Qfloor_le (- (x * 100) + (1 # 2))) as Hlo.
    pose proof (Qlt_floor (- (x * 100) + (1 # 2))) as Hhi.
    rewrite inject_Z_plus in Hhi. change (inject_Z 1) with 1%Q in Hhi.
    rewrite inject_Z_opp. split; lra.
Qed.

Lemma AVG_mean xs : xs <> [] -> AVG xs = Some (mean xs).
Proof. by destruct xs. Qed.

Lemma mapM_Ok {A B} (f : A -> result B) l l' :
  mapM f l = Ok l' -> Forall2 (fun x y => f x = Ok y) l l'.
Proof.
  revert l'. induction l as [|x l IH]; intros l' H; simpl in H.
  - injection H as <-. constructor.
  - bind_inv H as y Hy. bind_inv H as ys Hys. injection H as <-. constructor; auto.
Qed.

Lemma mapM_total {A B} (f : A -> result B) l :
  Forall (fun x => exists y, f x = Ok y) l -> exists l', mapM f l = Ok l'.
Proof.
  induction 1 as [|x l [y Hy] _ [l' Hl']]; simpl; [eauto|].
  rewrite Hy; simpl. rewrite Hl'; simpl. eauto.
Qed.

Lemma store_rating_Ok avg n s s' :
  store_rating avg n s = Ok s' -> s' = Shop.with_rating avg (Some n) s.
Proof.
  unfold store_rating. intros H. bind_inv H as a Ha. bind_inv H as c Hc.
  injection H as <-. apply int4_Ok in Hc as [-> _].
  destruct avg as [h|].
  - bind_inv Ha as h' Hh'. injection Ha as <-. unfold numeric_3_2 in Hh'.
    destruct (Z.abs h <? 1000); [|done]. by injection Hh' as <-.
  - by injection Ha as <-.
Qed.

Lemma store_rating_any avg n s s' s2 :
  store_rating avg n s = Ok s' ->
  store_rating avg n s2 = Ok (Shop.with_rating avg (Some n) s2).
Proof.
  unfold store_rating. intros H. bind_inv H as a Ha. bind_inv H as c Hc.
  rewrite Ha; simpl. rewrite Hc; simpl.
  apply int4_Ok in Hc as [-> _].
  destruct avg as [h|].
  - bind_inv Ha as h' Hh'. injection Ha as <-. unfold numeric_3_2 in Hh'.
    destruct (Z.abs h <? 1000); [|done]. by injection Hh' as <-.
  - by injection Ha as <-.
Qed.

(** What one run of the trigger function leaves behind. *)
Lemma update_shop_rating_Ok now NEW d d' :
  update_shop_rating now NEW d = Ok d' ->
  d' = with_barber_shops (barber_shops d') d /\
  Forall2 (fun s s' =>
             (Shop.id s = Review.shop_id NEW ->
              store_rating (select_rating_avg (Review.shop_id NEW) (reviews d))
                (select_total_reviews (Review.shop_id NEW) (reviews d)) s
                = Ok (Shop.with_rating
                        (select_rating_avg (Review.shop_id NEW) (reviews d))
                        (Some (select_total_reviews (Review.shop_id NEW) (reviews d))) s) /\
              s' = update_updated_at_column now
                     (Shop.with_rating
                        (select_rating_avg (Review.shop_id NEW) (reviews d))
                        (Some (select_total_reviews (Review.shop_id NEW) (reviews d))) s)) /\
             (Shop.id s <> Review.shop_id NEW -> s' = s))
          (barber_shops d) (barber_shops d').
Proof.
  unfold update_shop_rating. intros H. bind_inv H as ss Hss. injection H as <-.
  split; [done|]. simpl. apply mapM_Ok in Hss.
  eapply Forall2_impl; [exact Hss|]. simpl. intros s s' Hs.
  destruct (decide _) as [Heq|Hne].
  - bind_inv Hs as s1 Hs1. injection Hs as <-.
    pose proof (store_rating_Ok _ _ _ _ Hs1) as ->. split; [done|tauto].
  - injection Hs as <-. split; [tauto|done].
Qed.

Lemma Forall2_chain {A B C} (P : A -> B -> Prop) (Q : B -> C -> Prop)
    (G : B -> C -> Prop) l k m :
  (forall x y z, P x y -> Q y z -> G y z) ->
  Forall2 P l k -> Forall2 Q k m -> Forall2 G k m.
Proof.
  intros HG HP. revert m. induction HP as [|x y l k Hxy _ IH]; intros m HQ.
  - inversion HQ. constructor.
  - inversion HQ as [|? z ? m' Hyz HQ']; subst. constructor; eauto.
Qed.

Lemma insert_review_Ok now NEW d d' :
  insert_review now NEW d = Ok d' ->
  rating_check NEW = true /\
  Review.shop_id NEW ∈ Shop.id <$> barber_shops d /\
  update_shop_rating now NEW (with_reviews (reviews d ++ [NEW]) d) = Ok d'.
Proof.
  unfold insert_review. intros H.
  bind_inv H as u1 H1. bind_inv H as u2 H2. bind_inv H as u3 H3.
  bind_inv H as u4 H4. bind_inv H as u5 H5. bind_inv H as u6 H6.
  apply ensure_Ok in H1, H5. apply bool_decide_eq_true in H5. done.
Qed.

Lemma reviews_of_snoc (NEW : Review.row) rs :
  reviews_of (Review.shop_id NEW) (rs ++ [NEW]) =
  reviews_of (Review.shop_id NEW) rs ++ [NEW].
Proof.
  unfold reviews_of. rewrite filter_app. f_equal. by rewrite filter_cons_True.
Qed.

Lemma select_rating_avg_snoc (NEW : Review.row) rs :
  select_rating_avg (Review.shop_id NEW) (rs ++ [NEW]) =
  Some (ROUND2 (mean (Review.rating <$> reviews_of (Review.shop_id NEW) (rs ++ [NEW])))).
Proof.
  unfold select_rating_avg. rewrite AVG_mean; [done|].
  rewrite reviews_of_snoc, fmap_app. simpl. by destruct (_ <$> _).
Qed.

Lemma SUM_bounds xs :
  Forall (fun x => 1 <= x <= 5) xs ->
  Z.of_nat (length xs) <= SUM xs <= 5 * Z.of_nat (length xs).
Proof.
  induction 1 as [|x xs Hx _ IH]; simpl; [lia|]. unfold SUM in *. simpl. lia.
Qed.

Lemma mean_bounds xs :
  xs <> [] -> Forall (fun x => 1 <= x <= 5) xs -> (1 <= mean xs /\ mean xs <= 5)%Q.
Proof.
  intros Hne Hall. pose proof (SUM_bounds xs Hall) as [Hlo Hhi]. unfold mean.
  assert (Hpos : (0 < inject_Z (Z.of_nat (length xs)))%Q).
  { change 0%Q with (inject_Z 0). rewrite <- Zlt_Qlt. destruct xs; [done|simpl; lia]. }
  split.
  - apply Qle_shift_div_l; [done|]. rewrite Qmult_1_l. by rewrite <- Zle_Qle.
  - apply Qle_shift_div_r; [done|].
    change 5%Q with (inject_Z 5). rewrite <- inject_Z_mult. by rewrite <- Zle_Qle.
Qed.

Lemma ROUND2_of_ratings xs :
  xs <> [] -> Forall (fun x => 1 <= x <= 5) xs -> 100 <= ROUND2 (mean xs) <= 500.
Proof.
  intros Hne Hall. destruct (mean_bounds xs Hne Hall) as [Hlo Hhi].
  destruct (ROUND2_nearest (mean xs)) as [Hl Hh].
  split.
  - assert (Hq : (inject_Z 99 < inject_Z (ROUND2 (mean xs)))%Q)
      by (change (inject_Z 99) with 99%Q; lra).
    rewrite <- Zlt_Qlt in Hq. lia.
  - assert (Hq : (inject_Z (ROUND2 (mean xs)) < inject_Z 501)%Q)
      by (change (inject_Z 501) with 501%Q; lra).
    rewrite <- Zlt_Qlt in Hq. lia.
Qed.

Lemma store_rating_fits h n s :
  Z.abs h < 1000 -> int4_min <= n <= int4_max ->
  store_rating (Some h) n s = Ok (Shop.with_rating (Some h) (Some n) s).
Proof.
  intros Hh Hn. unfold store_rating, numeric_3_2.
  apply Z.ltb_lt in Hh. rewrite Hh. simpl. by rewrite int4_in.
Qed.

Lemma update_shop_rating_total now NEW d :
  (forall h, select_rating_avg (Review.shop_id NEW) (reviews d) = Some h ->
             Z.abs h < 1000) ->
  int4_min <= select_total_reviews (Review.shop_id NEW) (reviews d) <= int4_max ->
  exists d', update_shop_rating now NEW d = Ok d'.
Proof.
  intros Havg Hn. unfold update_shop_rating. cbv zeta.
  destruct (mapM_total
              (fun s => if decide (Shop.id s = Review.shop_id NEW)
                        then do s' <- store_rating
                                        (select_rating_avg (Review.shop_id NEW) (reviews d))
                                        (select_total_reviews (Review.shop_id NEW)
                                           (reviews d)) s;
                             Ok (update_updated_at_column now s')
                        else Ok s) (barber_shops d)) as [ss Hss].
  { apply Forall_forall. intros s _. destruct (decide _); [|eauto].
    destruct (select_rating_avg _ _) as [h|] eqn:Hh.
    - rewrite store_rating_fits by auto. simpl. eauto.
    - unfold store_rating. rewrite int4_in by done. simpl. eauto. }
  rewrite Hss. simpl. eauto.
Qed.

Lemma insert_review_total now NEW d :
  reviews_rating_check d -> review_admissible NEW d ->
  exists d', insert_review now NEW d = Ok d'.
Proof.
  intros Hchk (Hr & Hid & Hcol & Hu & Hs & Hb & Hlen).
  unfold insert_review. rewrite Hr, Hcol.
  rewrite !bool_decide_eq_true_2 by done.
  assert (Hbk : match Review.booking_id NEW with
                | Some b => bool_decide (b ∈ Booking.id <$> bookings d)
                | None => true
                end = true).
  { destruct (Review.booking_id NEW) as [b|]; [|done].
    apply bool_decide_eq_true_2. by apply Hb. }
  rewrite Hbk. cbn [negb ensure bind].
  apply update_shop_rating_total; cbn [reviews with_reviews].
  - rewrite select_rating_avg_snoc. intros h [= <-].
    enough (100 <= ROUND2 (mean (Review.rating <$>
              reviews_of (Review.shop_id NEW) (reviews d ++ [NEW]))) <= 500) by lia.
    apply ROUND2_of_ratings.
    + rewrite reviews_of_snoc, fmap_app. apply not_eq_sym, app_cons_not_nil.
    + unfold reviews_of. apply Forall_fmap, Forall_forall. intros r Hin.
      apply list_elem_of_filter in Hin as [_ Hin].
      assert (Hrc : rating_check r = true).
      { apply elem_of_app in Hin as [Hin|Hin].
        - unfold reviews_rating_check in Hchk. rewrite Forall_forall in Hchk. auto.
        - apply list_elem_of_singleton in Hin. by subst. }
      unfold rating_check in Hrc. simpl. lia.
  - unfold select_total_reviews, COUNT, reviews_of.
    pose proof (length_filter (fun r => Review.shop_id r = Review.shop_id NEW)
                  (reviews d ++ [NEW])) as Hle.
    rewrite length_app in Hle. simpl in Hle.
    assert (int4_min = -2147483648) by reflexivity. lia.
Qed.

(** What a completed review insert has stored, in the terms of the queries. *)
Lemma insert_review_aggregate now NEW d :
  (reviews_rating_check d -> review_admissible NEW d ->
   exists d', insert_review now NEW d = Ok d') /\
  (forall d', insert_review now NEW d = Ok d' ->
     let shop := Review.shop_id NEW in
     let R := ratings_of shop d' in
     reviews d' = reviews d ++ [NEW] /\
     (exists S, S ∈ barber_shops d' /\ Shop.id S = shop) /\
     (forall S, S ∈ barber_shops d' -> Shop.id S = shop ->
        Shop.rating_avg S = Some (ROUND2 (mean R)) /\
        rounded_to_2_places (mean R) (ROUND2 (mean R)) /\
        Shop.total_reviews S = Some (Z.of_nat (length R))) /\
     (forall now2, exists d'',
        update_shop_rating now2 NEW d' = Ok d'' /\
        reviews d'' = reviews d' /\
        Forall2 (fun S S2 =>
                   Shop.id S2 = Shop.id S /\
                   Shop.rating_avg S2 = Shop.rating_avg S /\
                   Shop.total_reviews S2 = Shop.total_reviews S)
                (barber_shops d') (barber_shops d''))).
Proof.
  split; [apply insert_review_total|].
  intros d' H shop R. apply insert_review_Ok in H as (_ & Hfk & H).
  apply update_shop_rating_Ok in H as [Hd' F1]. simpl in F1.
  assert (Hrs : reviews d' = reviews d ++ [NEW]) by (by rewrite Hd').
  assert (Havg : select_rating_avg shop (reviews d ++ [NEW]) = Some (ROUND2 (mean R))).
  { unfold R, ratings_of. rewrite Hrs. apply select_rating_avg_snoc. }
  assert (Hcnt : select_total_reviews shop (reviews d ++ [NEW]) = Z.of_nat (length R)).
  { unfold R, ratings_of. by rewrite Hrs, length_fmap. }
  fold shop in F1. rewrite Havg, Hcnt in F1.
  split; [done|]. split; [|split].
  - apply list_elem_of_fmap in Hfk as (s & Hid & Hs).
    apply list_elem_of_lookup in Hs as [i Hi].
    destruct (Forall2_lookup_l _ _ _ _ _ F1 Hi) as (S & HS & Hrel & _).
    exists S. split; [by eapply list_elem_of_lookup_2|].
    destruct (Hrel (eq_sym Hid)) as [_ ->]. by simpl.
  - intros S HS Hid. apply list_elem_of_lookup in HS as [i Hi].
    destruct (Forall2_lookup_r _ _ _ _ _ F1 Hi) as (s & Hs & Hrel & Hother).
    destruct (decide (Shop.id s = shop)) as [Heq|Hne].
    + destruct (Hrel Heq) as [_ ->]. simpl.
      split; [done|]. split; [apply ROUND2_nearest|done].
    + exfalso. apply Hne. by rewrite <- (Hother Hne).
  - intros now2.
    assert (exists ss, mapM (fun s => if decide (Shop.id s = shop)
                          then do s' <- store_rating (Some (ROUND2 (mean R)))
                                          (Z.of_nat (length R)) s;
                               Ok (update_updated_at_column now2 s')
                          else Ok s) (barber_shops d') = Ok ss) as [ss Hss].
    { apply mapM_total, Forall_lookup. intros i S Hi.
      destruct (decide _) as [Heq|Hne]; [|eauto].
      destruct (Forall2_lookup_r _ _ _ _ _ F1 Hi) as (s & Hs & Hrel & Hother).
      destruct (decide (Shop.id s = shop)) as [Heq'|Hne'].
      - destruct (Hrel Heq') as [Hst _].
        rewrite (store_rating_any _ _ _ _ S Hst). simpl. eauto.
      - exfalso. apply Hne'. by rewrite <- (Hother Hne'). }
    assert (H2 : update_shop_rating now2 NEW d' = Ok (with_barber_shops ss d')).
    { unfold update_shop_rating. fold shop. rewrite Hrs, Havg, Hcnt, Hss. done. }
    eexists. split; [exact H2|]. split; [done|].
    apply update_shop_rating_Ok in H2 as [_ F2]. simpl in F2. fold shop in F2.
    rewrite Hrs, Havg, Hcnt in F2.
    eapply Forall2_chain; [|exact F1|exact F2].
    simpl. intros s S S2 [Hrel Hother] [Hrel2 Hother2].
    assert (HidS : Shop.id S = Shop.id s).
    { destruct (decide (Shop.id s = shop)) as [Heq|Hne].
      - by destruct (Hrel Heq) as [_ ->].
      - by rewrite (Hother Hne). }
    destruct (decide (Shop.id S = shop)) as [Heq|Hne].
    + destruct (Hrel2 Heq) as [_ ->]. rewrite HidS in Heq.
      destruct (Hrel Heq) as [_ ->]. done.
    + by rewrite (Hother2 Hne).
Qed.

Lemma shop_reviews_reviews_of shop rs : shop_reviews shop rs = reviews_of shop rs.
Proof.
  unfold reviews_of. induction rs as [|r rs IH]; [done|]. cbn [shop_reviews].
  rewrite filter_cons. destruct (decide _); by rewrite IH.
Qed.

Lemma arithmetic_mean_mean xs : arithmetic_mean xs = mean xs.
Proof.
  unfold arithmetic_mean, mean, SUM. do 3 f_equal.
  apply fold_symmetric; intros; lia.
Qed.

(** C2. Once a review row for a shop has been inserted, the shop's cached
    rating average is the arithmetic mean of the ratings of the review rows
    whose shop reference is that shop, the new one included and the rows of
    other shops left out, rounded to two decimal places, and its cached
    review count is the number of those rows; running the aggregation again
    over the same reviews completes and gives the same two values.  The
    insert completes for a row the constraints of the table admit. *)
Theorem rating_aggregate_after_insert now NEW d :
  (reviews_rating_check d -> review_admissible NEW d ->
   exists d', insert_review now NEW d = Ok d') /\
  (forall d', insert_review now NEW d = Ok d' ->
     let shop := Review.shop_id NEW in
     let rows := shop_reviews shop (reviews d') in
     let R := Review.rating <$> rows in
     reviews d' = reviews d ++ [NEW] /\
     (forall r, r ∈ rows <-> r ∈ reviews d' /\ Review.shop_id r = shop) /\
     rows = shop_reviews shop (reviews d) ++ [NEW] /\
     (exists S, S ∈ barber_shops d' /\ Shop.id S = shop) /\
     (forall S, S ∈ barber_shops d' -> Shop.id S = shop ->
        Shop.rating_avg S = Some (ROUND2 (arithmetic_mean R)) /\
        rounded_to_2_places (arithmetic_mean R) (ROUND2 (arithmetic_mean R)) /\
        Shop.total_reviews S = Some (Z.of_nat (length rows))) /\
     (forall now2, exists d'',
        update_shop_rating now2 NEW d' = Ok d'' /\
        reviews d'' = reviews d' /\
        Forall2 (fun S S2 =>
                   Shop.id S2 = Shop.id S /\
                   Shop.rating_avg S2 = Shop.rating_avg S /\
                   Shop.total_reviews S2 = Shop.total_reviews S)
                (barber_shops d') (barber_shops d''))).
Proof.
  split; [apply (insert_review_aggregate now NEW d)|].
  intros d' H shop rows R.
  destruct (proj2 (insert_review_aggregate now NEW d) d' H) as (Hrs & HS & Hval & Hagain).
  assert (HR : R = ratings_of shop d').
  { unfold R, rows, ratings_of. by rewrite shop_reviews_reviews_of. }
  split; [done|]. split; [|split; [|split; [done|split; [|done]]]].
  - intros r. unfold rows. rewrite shop_reviews_reviews_of. unfold reviews_of.
    rewrite list_elem_of_filter. tauto.
  - unfold rows. rewrite !shop_reviews_reviews_of, Hrs. apply reviews_of_snoc.
  - intros S HSin Hid. destruct (Hval S HSin Hid) as (Havg & Hround & Hcnt).
    rewrite arithmetic_mean_mean, HR.
    split; [done|]. split; [done|].
    rewrite Hcnt. unfold ratings_of, rows.
    by rewrite length_fmap, shop_reviews_reviews_of.
Qed.

Example reviewed_insert :
  insert_review 20 (Reviewed.review 33 3 4) Reviewed.state =
  Ok (mkdb (auth_users Reviewed.state) []
        [Shop.with_updated_at (Some 20)
           (Shop.with_rating (Some 433) (Some 3) (Scenario.shop 7 (Some 30)));
         Scenario.shop 8 (Some 20)] []
        [Reviewed.review 31 1 5; Reviewed.review 32 2 4; Reviewed.review 33 3 4]).
Proof. vm_compute. reflexivity. Qed.

(** Reviews of another shop stay out of the aggregate: 5, 4 and 4 stars give
    4.33 over three reviews, with two one-star reviews of shop 8 in the
    table. *)
Example reviewed_insert_mixed :
  insert_review 20 (Reviewed.review 33 3 4) Reviewed.mixed =
  Ok (mkdb (auth_users Reviewed.mixed) []
        [Shop.with_updated_at (Some 20)
           (Shop.with_rating (Some 433) (Some 3) (Scenario.shop 7 (Some 30)));
         Scenario.shop 8 (Some 20)] []
        [Reviewed.review 31 1 5; Reviewed.elsewhere 41 1 1; Reviewed.review 32 2 4;
         Reviewed.elsewhere 42 2 1; Reviewed.review 33 3 4]).
Proof. vm_compute. reflexivity. Qed.

Lemma rating_aggregate_after_insert_witness :
  exists d',
    insert_review 20 (Reviewed.review 33 3 4) Reviewed.mixed = Ok d' /\
    reviews d' = reviews Reviewed.mixed ++ [Reviewed.review 33 3 4] /\
    shop_reviews 7 (reviews d')
      = [Reviewed.review 31 1 5; Reviewed.review 32 2 4; Reviewed.review 33 3 4] /\
    (exists S, S ∈ barber_shops d' /\ Shop.id S = 7) /\
    (forall S, S ∈ barber_shops d' -> Shop.id S = 7 ->
       Shop.rating_avg S = Some 433 /\ Shop.total_reviews S = Some 3) /\
    (forall now2, exists d'',
       update_shop_rating now2 (Reviewed.review 33 3 4) d' = Ok d'' /\
       reviews d'' = reviews d' /\
       Forall2 (fun S S2 =>
                  Shop.id S2 = Shop.id S /\
                  Shop.rating_avg S2 = Shop.rating_avg S /\
                  Shop.total_reviews S2 = Shop.total_reviews S)
               (barber_shops d') (barber_shops d'')).
Proof.
  destruct (rating_aggregate_after_insert 20 (Reviewed.review 33 3 4) Reviewed.mixed)
    as [Hruns Hpost].
  destruct Hruns as [d' Hd'].
  - repeat constructor.
  - split; [reflexivity|]. split; [by_compute|]. split; [reflexivity|].
    split; [by_compute|]. split; [by_compute|]. split; [intros b Hb; discriminate Hb|].
    vm_compute. reflexivity.
  - exists d'. split; [exact Hd'|].
    destruct (Hpost d' Hd') as (Hrs & _ & Hrows & HS & Hval & Hagain).
    split; [exact Hrs|]. split; [exact Hrows|]. split; [exact HS|].
    split; [|exact Hagain].
    intros S HSin Hid. destruct (Hval S HSin Hid) as (Havg & _ & Hcnt).
    rewrite Hrows in Havg, Hcnt. split; [exact Havg|exact Hcnt].
Defined.

(** C7. The cached rating does not follow the reviews through an update: the
    author of a review may change its rating, no trigger runs on that, and
    the shop keeps the average of the ratings as they were at the last
    insert.  Here three reviews 5, 4, 4 give 4.33; the first is then changed
    to 1 by its author, the reviews now average 3.00 and the shop still
    shows 4.33. *)
Theorem review_update_leaves_rating_stale :
  exists d0 d1 S,
    insert_review 20 (Reviewed.review 33 3 4) Reviewed.state = Ok d0 /\
    Forall (rating_cache_fresh d0) (filter (fun S => Shop.id S = 7) (barber_shops d0)) /\
    update_review_rating 1 31 1 d0 = Ok d1 /\
    S ∈ barber_shops d1 /\ Shop.id S = 7 /\
    Shop.rating_avg S = Some 433 /\
    select_rating_avg 7 (reviews d1) = Some 300 /\
    ~ rating_cache_fresh d1 S.
Proof.
  eexists _, _, _. split; [exact reviewed_insert|].
  split; [|split; [vm_compute; reflexivity|]].
  - repeat constructor.
  - split; [constructor|]. split; [reflexivity|]. split; [reflexivity|].
    split; [vm_compute; reflexivity|].
    intros [Hbad _]. vm_compute in Hbad. discriminate.
Qed.

(** ** Identity-linked profile creation *)

(** The routine is declared with an empty search_path, and user_role lives
    in public: the cast does not find its type. *)
Lemma resolve_user_role_empty : resolve_type [] "user_role" = Raise undefined_object.
Proof. vm_compute. reflexivity. Qed.

Lemma resolve_user_role_public path :
  "public" ∈ path -> resolve_type path "user_role" = Ok tt.
Proof.
  intros Hin. unfold resolve_type.
  replace (type_schema "user_role") with (Some "public") by (vm_compute; reflexivity).
  unfold ensure. rewrite bool_decide_eq_true_2; [done|]. by right.
Qed.

Lemma cast_user_role_unresolved t : cast_user_role [] t = Raise undefined_object.
Proof. unfold cast_user_role. by rewrite resolve_user_role_empty. Qed.

Lemma handle_new_user_raises now fresh new d :
  handle_new_user now fresh new d = Raise undefined_object.
Proof.
  unfold handle_new_user, handle_new_user_body. cbv zeta.
  by rewrite cast_user_role_unresolved.
Qed.

Lemma cast_user_role_Ok path t r :
  cast_user_role path t = Ok r ->
  match t with
  | None => r = None
  | Some s => exists v, r = Some v /\ s = user_role_label v
  end.
Proof.
  unfold cast_user_role. intros H. bind_inv H as u Hu.
  destruct t as [s|]; [|by injection H as <-].
  revert H. repeat case_decide; intros [= <-]; subst; eauto.
Qed.

Lemma cast_user_role_label path v :
  "public" ∈ path -> cast_user_role path (Some (user_role_label v)) = Ok (Some v).
Proof.
  intros Hin. unfold cast_user_role. rewrite resolve_user_role_public by done.
  by destruct v.
Qed.

Lemma cast_user_role_invalid path s :
  "public" ∈ path ->
  (forall v, s <> user_role_label v) ->
  cast_user_role path (Some s) = Raise invalid_text_representation.
Proof.
  intros Hin Hs. unfold cast_user_role. rewrite resolve_user_role_public by done.
  cbn [bind].
  rewrite !decide_False; [done|apply (Hs admin)|apply (Hs barber)|apply (Hs customer)].
Qed.

Lemma insert_profile_Ok NEW d d' :
  insert_profile NEW d = Ok d' ->
  d' = with_profiles (profiles d ++ [NEW]) d /\
  Profile.user_id NEW ∉ (Profile.user_id <$> profiles d).
Proof.
  unfold insert_profile. intros H.
  bind_inv H as u1 H1. bind_inv H as u2 H2. bind_inv H as u3 H3.
  injection H as <-. apply ensure_Ok, bool_decide_eq_true in H2. done.
Qed.

Lemma insert_profile_taken NEW d :
  Profile.user_id NEW ∈ Profile.user_id <$> profiles d ->
  insert_profile NEW d = Raise unique_violation.
Proof.
  intros Hin. unfold insert_profile.
  destruct (bool_decide (Profile.id NEW ∉ _)); simpl; [|done].
  by rewrite bool_decide_eq_false_2 by (by intros Hn; apply Hn).
Qed.

(** The body, when it returns, has added exactly the row it built. *)
Lemma handle_new_user_body_Ok path now fresh new d d' :
  handle_new_user_body path now fresh new d = Ok d' ->
  exists p,
    d' = with_profiles (profiles d ++ [p]) d /\
    Profile.user_id p = AuthUser.id new /\
    (AuthUser.id new ∉ Profile.user_id <$> profiles d) /\
    Profile.name p =
      COALESCE (json_get_text (AuthUser.raw_user_meta_data new) "name") "" /\
    Profile.phone p =
      Some (COALESCE (json_get_text (AuthUser.raw_user_meta_data new) "phone") "") /\
    match json_get_text (AuthUser.raw_user_meta_data new) "role" with
    | None => Profile.role p = customer
    | Some s => s = user_role_label (Profile.role p)
    end.
Proof.
  intros H. unfold handle_new_user_body in H. cbv zeta in H. bind_inv H as r Hr.
  apply insert_profile_Ok in H as [-> Hfree]. simpl in Hfree.
  eexists. split; [done|]. simpl. repeat split; [done|].
  apply cast_user_role_Ok in Hr.
  destruct (json_get_text (AuthUser.raw_user_meta_data new) "role") as [s|].
  - by destruct Hr as (v & -> & ->).
  - by subst r.
Qed.

(** With public on the search_path the body goes through for an identity
    without a profile whose role is absent or a declared label. *)
Lemma handle_new_user_body_public path now fresh new d :
  "public" ∈ path ->
  fresh ∉ Profile.id <$> profiles d ->
  AuthUser.id new ∉ Profile.user_id <$> profiles d ->
  AuthUser.id new ∈ AuthUser.id <$> auth_users d ->
  (json_get_text (AuthUser.raw_user_meta_data new) "role" = None \/
   exists r, json_get_text (AuthUser.raw_user_meta_data new) "role"
             = Some (user_role_label r)) ->
  exists d', handle_new_user_body path now fresh new d = Ok d'.
Proof.
  intros Hpath Hid Huid Hfk Hrole. unfold handle_new_user_body. cbv zeta.
  assert (exists r, cast_user_role path
            (json_get_text (AuthUser.raw_user_meta_data new) "role") = Ok r)
    as [r ->].
  { destruct Hrole as [->|[r ->]].
    - unfold cast_user_role. rewrite resolve_user_role_public by done. by eexists.
    - rewrite cast_user_role_label by done. eauto. }
  cbn [bind]. unfold insert_profile. cbn [Profile.id Profile.user_id].
  rewrite !bool_decide_eq_true_2 by done. simpl. eauto.
Qed.

Lemma filter_none {A} (P : A -> Prop) `{!forall x, Decision (P x)} (l : list A) :
  (forall x, x ∈ l -> ~ P x) -> filter P l = [].
Proof.
  induction l as [|x l IH]; intros Hall; [done|].
  rewrite filter_cons_False by (apply Hall; constructor).
  apply IH. intros y Hy. apply Hall. by constructor.
Qed.

Lemma profiles_of_after_insert uid p d :
  Profile.user_id p = uid ->
  uid ∉ Profile.user_id <$> profiles d ->
  profiles_of uid (with_profiles (profiles d ++ [p]) d) = [p].
Proof.
  intros Hp Hfree. unfold profiles_of. simpl. rewrite filter_app.
  rewrite filter_cons_True by done. simpl.
  rewrite filter_none; [done|].
  intros q Hq Hquid. apply Hfree. rewrite <- Hquid. by apply list_elem_of_fmap_2.
Qed.

Lemma insert_auth_user_fresh now fresh new d :
  AuthUser.id new ∉ AuthUser.id <$> auth_users d ->
  insert_auth_user now fresh new d =
  handle_new_user now fresh new (with_auth_users (auth_users d ++ [new]) d).
Proof.
  intros Hfree. unfold insert_auth_user. by rewrite bool_decide_eq_true_2.
Qed.

Lemma insert_auth_user_raises now fresh new d :
  exists e, insert_auth_user now fresh new d = Raise e.
Proof.
  unfold insert_auth_user.
  destruct (ensure _ _) as [u|e]; cbn [bind]; [|by eexists].
  rewrite handle_new_user_raises. by eexists.
Qed.

(** The body under a search_path that holds public: the profile rows the
    specification describes. *)
Example body_public_barber_al :
  handle_new_user_body ["public"] 4 51 Signup.barber_al
    (with_auth_users [Signup.barber_al] Signup.empty) = Ok Signup.after_al.
Proof. vm_compute. reflexivity. Qed.

Example body_public_plain :
  handle_new_user_body ["public"] 3 50 Signup.plain
    (with_auth_users [Signup.plain] Signup.empty) = Ok Signup.after_plain.
Proof. vm_compute. reflexivity. Qed.

Example body_public_owner :
  handle_new_user_body ["public"] 5 52 Signup.owner
    (with_auth_users [Signup.owner] Signup.empty) = Raise invalid_text_representation.
Proof. vm_compute. reflexivity. Qed.

(** C5. The routine as declared does not give a new identity its profile.
    Its cast names user_role without a schema and it runs with an empty
    search_path, so the type is not found: every firing raises
    undefined_object before a row is written, whatever the identity, the
    metadata and the database; the creation of a new identity fails with that
    error, and no identity creation ever completes, so no identity gets the
    one profile row with its defaults that the specification promises. *)
Theorem new_identity_gets_no_profile now fresh new d :
  handle_new_user now fresh new d = Raise undefined_object /\
  ((AuthUser.id new ∉ AuthUser.id <$> auth_users d) ->
   insert_auth_user now fresh new d = Raise undefined_object) /\
  (forall d', insert_auth_user now fresh new d <> Ok d').
Proof.
  split; [apply handle_new_user_raises|]. split.
  - intros Hnew. rewrite insert_auth_user_fresh by done. apply handle_new_user_raises.
  - intros d' H. destruct (insert_auth_user_raises now fresh new d) as [e He].
    by rewrite He in H.
Qed.

Lemma new_identity_gets_no_profile_witness :
  handle_new_user 4 51 Signup.barber_al (with_auth_users [Signup.barber_al] Signup.empty)
    = Raise undefined_object /\
  insert_auth_user 4 51 Signup.barber_al Signup.empty = Raise undefined_object.
Proof.
  split.
  - apply (new_identity_gets_no_profile 4 51 Signup.barber_al
             (with_auth_users [Signup.barber_al] Signup.empty)).
  - apply (new_identity_gets_no_profile 4 51 Signup.barber_al Signup.empty).
    by_compute.
Defined.



(** C6, as the specification words it, fails on both counts: fired for an
    identity that has its profile the routine raises, and an identity whose
    profile creation fails is not created. *)
Lemma duplicate_firing_raises :
  ~ duplicate_firing_is_silent /\ ~ profile_failure_is_contained.
Proof.
  split.
  - intros Hc.
    destruct (Hc 4 51 Signup.plain Signup.after_plain) as (d' & H & _).
    + vm_compute. reflexivity.
    + vm_compute in H. discriminate.
  - intros Hc.
    destruct (Hc 5 52 Signup.owner Signup.empty undefined_object) as [d' Hd'].
    + by_compute.
    + vm_compute. reflexivity.
    + vm_compute in Hd'. discriminate.
Qed.

(** C6, amended. An error of the profile-creation routine is the error of the
    identity creation: the routine has no handler, the trigger runs inside
    the transaction of the auth subsystem, and that transaction fails with
    the routine.  The unique constraint on the identity reference does not
    make a repeated insert silent either, the INSERT has no conflict clause:
    a profile row for an identity that has one is refused with a unique
    violation, and an insert that goes through leaves the identity with
    exactly that one row. *)
Theorem profile_failure_fails_identity_creation now fresh new d :
  (forall e,
     (AuthUser.id new ∉ AuthUser.id <$> auth_users d) ->
     handle_new_user now fresh new (with_auth_users (auth_users d ++ [new]) d) = Raise e ->
     insert_auth_user now fresh new d = Raise e) /\
  (forall p,
     Profile.user_id p ∈ Profile.user_id <$> profiles d ->
     insert_profile p d = Raise unique_violation) /\
  (forall p d',
     insert_profile p d = Ok d' ->
     profiles_of (Profile.user_id p) d' = [p] /\
     forall q, Profile.user_id q = Profile.user_id p ->
               insert_profile q d' = Raise unique_violation).
Proof.
  split; [|split].
  - intros e Hnew He. by rewrite insert_auth_user_fresh.
  - intros p. apply insert_profile_taken.
  - intros p d' H. apply insert_profile_Ok in H as [-> Hfree]. split.
    + by apply profiles_of_after_insert.
    + intros q Hq. apply insert_profile_taken. simpl. rewrite fmap_app, Hq.
      apply elem_of_app. right. constructor.
Qed.

Lemma profile_failure_fails_identity_creation_witness :
  insert_auth_user 5 52 Signup.owner Signup.empty = Raise undefined_object /\
  insert_profile (Profile.mk 60 11 "again" None customer None None) Signup.after_plain
    = Raise unique_violation /\
  profiles_of 11 Signup.after_plain
    = [Profile.mk 50 11 "" (Some "") customer (Some 3) (Some 3)] /\
  insert_profile (Profile.mk 60 11 "again" None customer None None) Signup.after_plain
    = Raise unique_violation.
Proof.
  split; [|split; [|split]].
  - apply (proj1 (profile_failure_fails_identity_creation 5 52 Signup.owner Signup.empty)).
    + by_compute.
    + vm_compute. reflexivity.
  - apply (proj1 (proj2 (profile_failure_fails_identity_creation
                           5 52 Signup.owner Signup.after_plain))).
    by_compute.
  - apply (proj2 (proj2 (profile_failure_fails_identity_creation 5 52 Signup.owner
                           (with_auth_users [Signup.plain] Signup.empty)))
             (Profile.mk 50 11 "" (Some "") customer (Some 3) (Some 3)) Signup.after_plain).
    vm_compute. reflexivity.
  - apply (proj2 (proj2 (profile_failure_fails_identity_creation 5 52 Signup.owner
                           (with_auth_users [Signup.plain] Signup.empty)))
             (Profile.mk 50 11 "" (Some "") customer (Some 3) (Some 3)) Signup.after_plain).
    + vm_compute. reflexivity.
    + reflexivity.
Defined.


(** * Further properties of the routines *)

(** ** The queue recompute procedure: errors and empty queues *)

Lemma queue_loop_Raise now avg ids c bs e :
  queue_loop now avg ids c bs = Raise e -> e = numeric_value_out_of_range.
Proof.
  revert c bs. induction ids as [|x rest IH]; intros c bs H; [done|].
  cbn [queue_loop] in H. unfold int4mi, int4mul, int4 in H.
  destruct (in_int4 (c - 1)); simpl in H; [|by injection H].
  destruct avg as [dur|]; simpl in H.
  - destruct (in_int4 ((c - 1) * dur)); simpl in H; [|by injection H].
    destruct (in_int4 (c + 1)); simpl in H; [|by injection H]. by eapply IH.
  - destruct (in_int4 (c + 1)); simpl in H; [|by injection H]. by eapply IH.
Qed.

Lemma queue_loop_Ok_fits now avg ids c bs bs' :
  c <= int4_max ->
  queue_loop now avg ids c bs = Ok bs' ->
  c + Z.of_nat (length ids) <= int4_max /\
  forall dur p, avg = Some dur -> c <= p < c + Z.of_nat (length ids) ->
    int4_min <= (p - 1) * dur <= int4_max.
Proof.
  revert c bs. induction ids as [|x rest IH]; intros c bs Hc H.
  - simpl. split; [lia|]. intros dur p _ Hp. lia.
  - cbn [queue_loop] in H. inv_bind H. inv_bind H. inv_bind H.
    simpl in Ha. bind_inv Ha as z Hz. apply int4_Ok in Hz as [-> _].
    injection Ha as <-. apply int4_Ok in Ha1 as [-> Hnext].
    destruct (IH _ _ (proj2 Hnext) H) as [Hlen Hfit].
    simpl length. split; [lia|].
    intros dur p Hd Hp. destruct (decide (p = c)) as [->|Hne].
    + subst avg. simpl in Ha0. bind_inv Ha0 as w Hw.
      by apply int4_Ok in Hw as [_ Hw].
    + apply Hfit; [done|lia].
Qed.

Lemma update_queue_positions_Ok_fits now s d d' :
  update_queue_positions now s d = Ok d' -> queue_fits s d.
Proof.
  intros H. unfold update_queue_positions in H. inv_bind H.
  apply queue_loop_Ok_fits in Ha as [Hlen Hfit]; [|done].
  unfold waiting_queue in Hlen, Hfit.
  rewrite length_fmap, order_by_length in Hlen, Hfit.
  split; [lia|]. intros dur p Hd Hp. apply Hfit; [done|lia].
Qed.

(** X1. The queue recompute raises nothing but "integer out of range", and
    it completes exactly when its arithmetic fits: the counter can step past
    the last waiting booking and every product (p - 1) * avg_duration stays
    inside INTEGER. *)
Theorem recompute_completes_iff_fits now s d :
  (forall e, update_queue_positions now s d = Raise e -> e = numeric_value_out_of_range) /\
  ((exists d', update_queue_positions now s d = Ok d') <-> queue_fits s d).
Proof.
  split.
  - intros e H. unfold update_queue_positions in H.
    destruct (queue_loop _ _ _ _ _) as [bs|e'] eqn:Hl; simpl in H; [done|].
    injection H as <-. by eapply queue_loop_Raise.
  - split; [|apply update_queue_positions_fits].
    intros [d' H]. by eapply update_queue_positions_Ok_fits.
Qed.

Lemma recompute_completes_iff_fits_witness :
  update_queue_positions 9000 7 Overflow.state = Raise numeric_value_out_of_range.
Proof.
  destruct (recompute_completes_iff_fits 9000 7 Overflow.state) as [Honly Hiff].
  destruct (update_queue_positions 9000 7 Overflow.state) as [d'|e] eqn:H.
  - exfalso. destruct (proj1 Hiff (ex_intro _ d' eq_refl)) as [_ Hfit].
    specialize (Hfit 2147483647 3 eq_refl).
    vm_compute in Hfit. destruct Hfit as [_ Hfit]; [split; discriminate|].
    by apply Hfit.
  - f_equal. by apply Honly.
Defined.

(** X2. For a shop without waiting bookings, a shop id that names no shop
    included, the recompute hands the database back as it is: no row is
    written or re-stamped, and no duration can make it raise. *)
Theorem recompute_empty_queue_is_noop now s d :
  filter (waiting_in s) (bookings d) = [] ->
  update_queue_positions now s d = Ok d.
Proof.
  intros Hempty. unfold update_queue_positions, waiting_queue.
  rewrite Hempty. simpl. by destruct d.
Qed.

Lemma recompute_empty_queue_is_noop_witness :
  update_queue_positions 9000 99 Overflow.state = Ok Overflow.state.
Proof. apply recompute_empty_queue_is_noop. vm_compute. reflexivity. Defined.

(** ** The rating aggregation trigger: what a review insert writes *)

(** The row of the reviewed shop after the trigger, column by column. *)
Lemma insert_review_shops now NEW d d' :
  insert_review now NEW d = Ok d' ->
  d' = with_barber_shops (barber_shops d') (with_reviews (reviews d ++ [NEW]) d) /\
  Forall2 (fun s s' =>
             (Shop.id s = Review.shop_id NEW ->
              s' = Shop.with_updated_at (Some now)
                     (Shop.with_rating
                        (select_rating_avg (Review.shop_id NEW) (reviews d ++ [NEW]))
                        (Some (select_total_reviews (Review.shop_id NEW) (reviews d ++ [NEW])))
                        s)) /\
             (Shop.id s <> Review.shop_id NEW -> s' = s))
          (barber_shops d) (barber_shops d').
Proof.
  intros H. apply insert_review_Ok in H as (_ & _ & H).
  apply update_shop_rating_Ok in H as [Hd' F]. split; [done|].
  simpl in F. eapply Forall2_impl; [exact F|]. simpl.
  intros s s' [Hrel Hother]. split; [|done]. intros Heq. by destruct (Hrel Heq).
Qed.

(** X3. A review insert writes the new review row and, in the row of the
    reviewed shop only, the columns rating_avg, total_reviews and (through
    the touch trigger of barber_shops) updated_at, which becomes now(); the
    rows of all other shops and every other table stay as they were. *)
Theorem review_insert_frame now NEW d d' :
  insert_review now NEW d = Ok d' ->
  auth_users d' = auth_users d /\
  profiles d' = profiles d /\
  bookings d' = bookings d /\
  reviews d' = reviews d ++ [NEW] /\
  Forall2 (fun s s' =>
             same_but_rating s s' /\
             (Shop.id s <> Review.shop_id NEW -> s' = s) /\
             (Shop.id s = Review.shop_id NEW -> Shop.updated_at s' = Some now))
          (barber_shops d) (barber_shops d').
Proof.
  intros H. apply insert_review_shops in H as [Hd' F].
  rewrite Hd'. simpl. repeat split.
  rewrite Hd' in F. simpl in F.
  eapply Forall2_impl; [exact F|]. simpl. intros s s' [Hrel Hother].
  destruct (decide (Shop.id s = Review.shop_id NEW)) as [Heq|Hne].
  - rewrite (Hrel Heq). unfold same_but_rating. simpl. tauto.
  - rewrite (Hother Hne). unfold same_but_rating. tauto.
Qed.

Lemma review_insert_frame_witness :
  exists d',
    insert_review 20 (Reviewed.review 33 3 4) Reviewed.state = Ok d' /\
    reviews d' = reviews Reviewed.state ++ [Reviewed.review 33 3 4] /\
    Forall2 (fun s s' =>
               same_but_rating s s' /\
               (Shop.id s <> 7 -> s' = s) /\
               (Shop.id s = 7 -> Shop.updated_at s' = Some 20))
            (barber_shops Reviewed.state) (barber_shops d').
Proof.
  eexists. split; [exact reviewed_insert|].
  destruct (review_insert_frame 20 (Reviewed.review 33 3 4) Reviewed.state _
              reviewed_insert) as (_ & _ & _ & Hr & Hs).
  split; [exact Hr|exact Hs].
Defined.

Lemma reviews_of_ratings_checked shop d :
  reviews_rating_check d ->
  Forall (fun x => 1 <= x <= 5) (Review.rating <$> reviews_of shop (reviews d)).
Proof.
  intros Hchk. apply Forall_fmap, Forall_forall. intros r Hin.
  apply list_elem_of_filter in Hin as [_ Hin].
  unfold reviews_rating_check in Hchk. rewrite Forall_forall in Hchk.
  specialize (Hchk r Hin). unfold rating_check in Hchk. simpl. lia.
Qed.

(** X4. The CHECK constraint on ratings survives both ways a rating is
    written, the insert of a review and the update of one by its author; and
    while it holds, what the insert trigger stores for the reviewed shop is
    an average between 1.00 and 5.00 and a count of at least one. *)
Theorem ratings_stay_within_bounds now NEW uid rid n d :
  reviews_rating_check d ->
  (forall d', insert_review now NEW d = Ok d' ->
     reviews_rating_check d' /\
     forall S, S ∈ barber_shops d' -> Shop.id S = Review.shop_id NEW ->
       exists h c, Shop.rating_avg S = Some h /\ 100 <= h <= 500 /\
                   Shop.total_reviews S = Some c /\ 1 <= c) /\
  (forall d', update_review_rating uid rid n d = Ok d' -> reviews_rating_check d').
Proof.
  intros Hchk. split.
  - intros d' H. pose proof (insert_review_Ok _ _ _ _ H) as (Hnew & _ & _).
    apply insert_review_shops in H as [Hd' F].
    assert (Hchk' : reviews_rating_check (with_reviews (reviews d ++ [NEW]) d)).
    { unfold reviews_rating_check. simpl. apply Forall_app. split; [done|].
      by constructor. }
    split; [by rewrite Hd'|].
    intros S HS Hid. apply list_elem_of_lookup in HS as [i Hi].
    destruct (Forall2_lookup_r _ _ _ _ _ F Hi) as (s & Hs & Hrel & Hother).
    destruct (decide (Shop.id s = Review.shop_id NEW)) as [Heq|Hne].
    + rewrite (Hrel Heq). simpl. rewrite select_rating_avg_snoc.
      eexists _, _. split; [done|]. split; [|split; [done|]].
      * apply ROUND2_of_ratings.
        -- rewrite reviews_of_snoc, fmap_app. apply not_eq_sym, app_cons_not_nil.
        -- apply (reviews_of_ratings_checked _ _ Hchk').
      * unfold select_total_reviews, COUNT. rewrite reviews_of_snoc, length_app.
        simpl. lia.
    + exfalso. apply Hne. by rewrite <- (Hother Hne).
  - intros d' H. unfold update_review_rating in H. bind_inv H as rs Hrs.
    injection H as <-. unfold reviews_rating_check in *. simpl.
    apply mapM_Ok in Hrs. revert Hchk.
    induction Hrs as [|r r' l l' Hr _ IH]; intros Hall; [constructor|].
    apply Forall_cons in Hall as [Hr0 Hall]. constructor; [|by apply IH].
    destruct (decide _).
    + bind_inv Hr as u Hu. injection Hr as <-. by apply ensure_Ok in Hu.
    + by injection Hr as <-.
Qed.

Lemma ratings_stay_within_bounds_witness :
  exists d',
    insert_review 20 (Reviewed.review 33 3 4) Reviewed.state = Ok d' /\
    reviews_rating_check d' /\
    forall S, S ∈ barber_shops d' -> Shop.id S = 7 ->
      exists h c, Shop.rating_avg S = Some h /\ 100 <= h <= 500 /\
                  Shop.total_reviews S = Some c /\ 1 <= c.
Proof.
  eexists. split; [exact reviewed_insert|].
  apply (proj1 (ratings_stay_within_bounds 20 (Reviewed.review 33 3 4) 1 31 1
                  Reviewed.state ltac:(repeat constructor))).
  exact reviewed_insert.
Defined.

(** ** ORDER BY against WHERE and against a late row *)

Section order_by_more.
Context {A : Type} (key : A -> option timestamptz).

Lemma sort_insert_first x l :
  HdRel (key_le key) x l -> sort_insert key x l = x :: l.
Proof. intros H. destruct H as [|y l Hxy]; simpl; [done|]. by rewrite decide_True. Qed.

Lemma HdRel_filter (P : A -> Prop) `{!forall x, Decision (P x)} x l :
  Forall (key_le key x) l -> HdRel (key_le key) x (filter P l).
Proof.
  intros Hall. assert (Hf : Forall (key_le key x) (filter P l)).
  { apply Forall_forall. intros y Hy. apply list_elem_of_filter in Hy as [_ Hy].
    rewrite Forall_forall in Hall. auto. }
  destruct Hf; by constructor.
Qed.

Lemma filter_sort_insert (P : A -> Prop) `{!forall x, Decision (P x)} x l :
  StronglySorted (key_le key) l ->
  filter P (sort_insert key x l) =
  if decide (P x) then sort_insert key x (filter P l) else filter P l.
Proof.
  induction 1 as [|y l Hs IH Hall]; simpl.
  - rewrite filter_cons, filter_nil. by destruct (decide (P x)).
  - destruct (decide (key_le key x y)) as [Hxy|Hxy].
    + rewrite (filter_cons P x). destruct (decide (P x)) as [Hx|Hx]; [|done].
      symmetry. apply sort_insert_first. apply HdRel_filter. constructor; [done|].
      eapply Forall_impl; [exact Hall|]. intros z Hz. unfold key_le in *.
      by eapply joined_at_le_trans.
    + rewrite (filter_cons P y), IH.
      destruct (decide (P x)) as [Hx|Hx]; destruct (decide (P y)) as [Hy|Hy].
      * rewrite (filter_cons_True P y) by done. simpl. by rewrite decide_False.
      * by rewrite (filter_cons_False P y).
      * by rewrite (filter_cons_True P y).
      * by rewrite (filter_cons_False P y).
Qed.

(** A stable sort and a filter can be taken in either order. *)
Lemma order_by_filter (P : A -> Prop) `{!forall x, Decision (P x)} (l : list A) :
  order_by key (filter P l) = filter P (order_by key l).
Proof.
  induction l as [|x l IH]; [done|]. cbn [order_by].
  rewrite filter_sort_insert.
  - rewrite filter_cons. destruct (decide (P x)); [cbn [order_by]|]; by rewrite IH.
  - apply Sorted_StronglySorted; [|apply order_by_Sorted].
    intros a b c. unfold key_le. apply joined_at_le_trans.
Qed.

Lemma sort_insert_snoc x l b :
  key_le key x b -> sort_insert key x (l ++ [b]) = sort_insert key x l ++ [b].
Proof.
  intros Hxb. induction l as [|y l IH]; simpl.
  - by rewrite decide_True.
  - destruct (decide (key_le key x y)); [done|]. by rewrite IH.
Qed.

(** A row that is last in scan order and not before any other in key order
    is last in the sorted order. *)
Lemma order_by_snoc l b :
  Forall (fun x => key_le key x b) l -> order_by key (l ++ [b]) = order_by key l ++ [b].
Proof.
  induction 1 as [|x l Hx _ IH]; [done|]. simpl.
  rewrite IH. by apply sort_insert_snoc.
Qed.
End order_by_more.

(** ** BarberDashboard.updateBookingStatus *)

Lemma filter_fmap_split {A} (P Q : A -> Prop) `{!forall x, Decision (P x)}
    `{!forall x, Decision (Q x)} (f : A -> A) (l : list A) :
  (forall x, x ∈ l -> (Q x -> f x = x /\ P x) /\ (~ Q x -> ~ P (f x))) ->
  filter P (f <$> l) = filter Q l.
Proof.
  induction l as [|x l IH]; intros Hf; [done|].
  rewrite fmap_cons. destruct (Hf x ltac:(constructor)) as [Hq Hnq].
  assert (IH' : filter P (f <$> l) = filter Q l).
  { apply IH. intros y Hy. apply Hf. by constructor. }
  destruct (decide (Q x)) as [Hx|Hx].
  - destruct (Hq Hx) as [Hfx HP]. rewrite Hfx.
    rewrite (filter_cons_True P x), (filter_cons_True Q x) by done. by rewrite IH'.
  - rewrite (filter_cons_False P (f x)) by auto.
    by rewrite (filter_cons_False Q x).
Qed.

Lemma filter_all {A} (P : A -> Prop) `{!forall x, Decision (P x)} (l : list A) :
  (forall x, x ∈ l -> P x) -> filter P l = l.
Proof.
  induction l as [|x l IH]; intros Hall; [done|].
  rewrite filter_cons_True by (apply Hall; constructor).
  f_equal. apply IH. intros y Hy. apply Hall. by constructor.
Qed.

Lemma length_filter_others {A} (f : A -> uuid) (l : list A) x :
  NoDup (f <$> l) -> x ∈ l ->
  (length (filter (fun y => f y <> f x) l) + 1 = length l)%nat.
Proof.
  induction l as [|z l IH]; intros Hnd Hx; [by apply elem_of_nil in Hx|].
  rewrite fmap_cons in Hnd. apply NoDup_cons in Hnd as [Hz Hnd].
  destruct (decide (f z = f x)) as [Heq|Hne].
  - rewrite filter_cons_False by auto. simpl.
    rewrite filter_all; [lia|].
    intros y Hy Hyx. apply Hz. rewrite Heq, <- Hyx.
    by apply list_elem_of_fmap_2.
  - rewrite filter_cons_True by done. simpl. f_equal. apply IH; [done|].
    apply elem_of_cons in Hx as [->|Hx]; [done|done].
Qed.

Lemma update_bookings_by_id_ids now uid bid set d :
  (forall b, Booking.id (set b) = Booking.id b) ->
  Booking.id <$> bookings (update_bookings_by_id now uid bid set d) =
  Booking.id <$> bookings d.
Proof.
  intros Hset. unfold update_bookings_by_id. simpl. rewrite <- list_fmap_compose.
  apply list_fmap_ext. intros _ b _. unfold compose.
  destruct (decide _); [|done]. destruct (booking_policy uid d b); [|done].
  simpl. apply Hset.
Qed.

Lemma update_bookings_by_id_target now uid set d b :
  b ∈ bookings d -> booking_policy uid d b = true ->
  update_row now set b ∈ bookings (update_bookings_by_id now uid (Booking.id b) set d).
Proof.
  intros Hb Hpol. unfold update_bookings_by_id. simpl.
  apply list_elem_of_fmap. exists b. split; [|done].
  by rewrite decide_True, Hpol.
Qed.

(** The waiting bookings left once one of them has been given another
    status: all the others, in the order they were in. *)
Lemma waiting_queue_without now uid cn st s d b :
  bookings_pkey d -> b ∈ bookings d -> booking_policy uid d b = true ->
  st <> waiting ->
  waiting_queue s
    (bookings (update_bookings_by_id now uid (Booking.id b) (updateData cn st) d)) =
  filter (fun b' => Booking.id b' <> Booking.id b) (waiting_queue s (bookings d)).
Proof.
  intros Hpk Hb Hpol Hst. unfold waiting_queue, update_bookings_by_id. simpl.
  rewrite <- order_by_filter, list_filter_filter. f_equal.
  apply filter_fmap_split. intros x Hx. split.
  - intros [Hne Hw]. by rewrite decide_False.
  - intros Hnq. destruct (decide (Booking.id x = Booking.id b)) as [Heq|Hne].
    + assert (x = b) as -> by (by eapply (pkey_inj Booking.id)).
      rewrite Hpol. unfold waiting_in. simpl. intros [_ [= ?]]. done.
    + intros Hw. apply Hnq. done.
Qed.

(** X7. In a shop where no two waiting bookings joined at the same time:
    when the barber gives a waiting booking of his shop another status
    (start, done, cancel, no-show) and the recompute that follows completes,
    the waiting queue of the shop is the old one without that booking, in the
    same order, and it is numbered 1..N-1 afresh: everyone behind moves up by
    one.  The booking that left is in the table with its new status.  Before
    and after, the queue is the only ascending order of the waiting bookings
    there is. *)
Theorem served_booking_leaves_and_queue_moves_up
    now1 now2 cn uid (shop : Shop.row) (b : Booking.row) st d :
  bookings_pkey d -> b ∈ bookings d -> booking_policy uid d b = true ->
  waiting_in (Shop.id shop) b -> st <> waiting ->
  queue_fits (Shop.id shop) d ->
  distinct_join_times (Shop.id shop) (bookings d) ->
  let d2 := updateBookingStatus now1 now2 cn uid (Some shop) (Booking.id b) st d in
  let q := waiting_queue (Shop.id shop) (bookings d) in
  let q2 := waiting_queue (Shop.id shop) (bookings d2) in
  (forall a, queue_answer (Shop.id shop) (bookings d) a -> a = q) /\
  (forall a, queue_answer (Shop.id shop) (bookings d2) a -> a = q2) /\
  Booking.id <$> q2 = Booking.id <$> filter (fun b' => Booking.id b' <> Booking.id b) q /\
  (length q2 + 1 = length q)%nat /\
  Booking.queue_position <$> q2 = Some <$> seqZ 1 (Z.of_nat (length q2)) /\
  update_row now1 (updateData cn st) b ∈ bookings d2.
Proof.
  intros Hpk Hb Hpol Hw Hst Hfit Hdist. cbv zeta. unfold updateBookingStatus. cbv zeta.
  set (s := Shop.id shop) in *.
  set (q := waiting_queue s (bookings d)).
  set (d1 := update_bookings_by_id now1 uid (Booking.id b) (updateData cn st) d).
  assert (Hpk1 : bookings_pkey d1).
  { unfold bookings_pkey, d1. by rewrite update_bookings_by_id_ids. }
  assert (Hq1 : waiting_queue s (bookings d1) =
                filter (fun b' => Booking.id b' <> Booking.id b) q)
    by (by apply waiting_queue_without).
  assert (Hbq : b ∈ q).
  { unfold q, waiting_queue. rewrite order_by_Permutation.
    by apply list_elem_of_filter. }
  assert (Hlen1 : (length (waiting_queue s (bookings d1)) + 1 = length q)%nat).
  { rewrite Hq1. apply length_filter_others; [|done]. by apply waiting_ids_NoDup. }
  assert (Hfit1 : queue_fits s d1).
  { destruct Hfit as [Hn Hprod]. unfold queue_fits.
    assert (Hcount : (length (filter (waiting_in s) (bookings d1)) + 1 =
                      length (filter (waiting_in s) (bookings d)))%nat).
    { unfold waiting_queue in Hlen1. rewrite order_by_length in Hlen1.
      unfold q, waiting_queue in Hlen1. by rewrite order_by_length in Hlen1. }
    split; [lia|]. intros dur p Hd Hp. apply Hprod; [done|lia]. }
  destruct (update_queue_positions_fits now2 s d1 Hfit1) as [d2 H2].
  rewrite H2.
  pose proof (update_queue_positions_Ok _ _ _ _ Hpk1 H2) as Hd2.
  assert (Hq2 : Booking.id <$> waiting_queue s (bookings d2) =
                Booking.id <$> waiting_queue s (bookings d1)).
  { rewrite Hd2. simpl. rewrite waiting_queue_requeued, <- list_fmap_compose.
    apply list_fmap_ext. intros _ x _. apply requeued_id. }
  assert (Hdist2 : distinct_join_times s (bookings d2)).
  { rewrite Hd2. cbn [bookings with_bookings].
    apply (proj2 (distinct_join_times_requeued _ _ _ _ _ _)).
    apply (proj2 (distinct_join_times_queue _ _)). rewrite Hq1.
    eapply sublist_NoDup; [exact (proj1 (distinct_join_times_queue _ _) Hdist)|].
    apply fmap_sublist, sublist_filter. }
  split; [intros a Ha; by apply queue_answer_unique|].
  split; [intros a Ha; by apply queue_answer_unique|].
  split; [by rewrite Hq2, Hq1|]. split.
  - rewrite <- Hlen1. f_equal.
    by rewrite <- (length_fmap Booking.id (waiting_queue s (bookings d2))), Hq2, length_fmap.
  - split; [by eapply queue_positions_seq|].
    rewrite Hd2. cbn [bookings with_bookings]. apply list_elem_of_fmap.
    exists (update_row now1 (updateData cn st) b). split.
    + symmetry. apply (requeued_not_waiting now2 _ 1 s d1); [done| |].
      * by apply update_bookings_by_id_target.
      * unfold waiting_in. simpl. intros [_ [= ?]]. done.
    + by apply update_bookings_by_id_target.
Qed.

Lemma served_booking_leaves_and_queue_moves_up_witness :
  let d2 := updateBookingStatus 9100 9200 9050 107 (Some (Scenario.shop 7 (Some 30)))
              1 in_progress Chair.state in
  let q := waiting_queue 7 (bookings Chair.state) in
  let q2 := waiting_queue 7 (bookings d2) in
  (forall a, queue_answer 7 (bookings Chair.state) a -> a = q) /\
  (forall a, queue_answer 7 (bookings d2) a -> a = q2) /\
  Booking.id <$> q2 = Booking.id <$> filter (fun b' => Booking.id b' <> 1) q /\
  (length q2 + 1 = length q)%nat /\
  Booking.queue_position <$> q2 = Some <$> seqZ 1 (Z.of_nat (length q2)) /\
  update_row 9100 (updateData 9050 in_progress) Scenario.A ∈ bookings d2.
Proof.
  apply (served_booking_leaves_and_queue_moves_up 9100 9200 9050 107
           (Scenario.shop 7 (Some 30)) Scenario.A in_progress Chair.state).
  - by_compute.
  - apply (list_elem_of_lookup_2 _ 2%nat). reflexivity.
  - vm_compute. reflexivity.
  - split; reflexivity.
  - discriminate.
  - split; [vm_compute; reflexivity|].
    intros dur p Hd Hp. vm_compute in Hd. injection Hd as <-.
    change (1 <= p <= 3) in Hp. unfold int4_min, int4_max. lia.
  - by_compute.
Defined.

Example chair_start_service :
  Booking.id <$>
    waiting_queue 7
      (bookings (updateBookingStatus 9100 9200 9050 107 (Some (Scenario.shop 7 (Some 30)))
                   1 in_progress Chair.state)) = [2; 3] /\
  Booking.queue_position <$>
    waiting_queue 7
      (bookings (updateBookingStatus 9100 9200 9050 107 (Some (Scenario.shop 7 (Some 30)))
                   1 in_progress Chair.state)) = [Some 1; Some 2].
Proof. vm_compute. split; reflexivity. Qed.

Lemma update_queue_positions_ids now s d d' :
  bookings_pkey d -> update_queue_positions now s d = Ok d' ->
  Booking.id <$> bookings d' = Booking.id <$> bookings d.
Proof.
  intros Hpk H. apply update_queue_positions_Ok in H; [|done]. subst d'.
  cbn [bookings with_bookings]. rewrite <- list_fmap_compose.
  apply list_fmap_ext. intros _ x _. apply requeued_id.
Qed.

(** X8. Whatever becomes of the recompute (it runs, it raises, or the page
    holds no shop and skips it), the booking the barber moved out of the
    waiting state is the one row with its id, has the new status, started_at
    from the browser's clock if and only if the status is in_progress,
    completed_at likewise for completed (neither is ever cleared),
    updated_at from the clock of the update, and still carries the queue
    position and estimated wait it had while waiting. *)
Theorem left_booking_keeps_its_last_position
    now1 now2 cn uid (myShop : option Shop.row) (b : Booking.row) st d :
  bookings_pkey d -> b ∈ bookings d -> booking_policy uid d b = true ->
  st <> waiting ->
  let d2 := updateBookingStatus now1 now2 cn uid myShop (Booking.id b) st d in
  exists b2,
    b2 ∈ bookings d2 /\
    (forall x, x ∈ bookings d2 -> Booking.id x = Booking.id b -> x = b2) /\
    Booking.status b2 = Some st /\
    Booking.queue_position b2 = Booking.queue_position b /\
    Booking.estimated_wait_time b2 = Booking.estimated_wait_time b /\
    Booking.started_at b2 =
      (if decide (st = in_progress) then Some cn else Booking.started_at b) /\
    Booking.completed_at b2 =
      (if decide (st = completed) then Some cn else Booking.completed_at b) /\
    Booking.updated_at b2 = Some now1.
Proof.
  intros Hpk Hb Hpol Hst. cbv zeta. unfold updateBookingStatus. cbv zeta.
  set (d1 := update_bookings_by_id now1 uid (Booking.id b) (updateData cn st) d).
  set (b1 := update_row now1 (updateData cn st) b).
  assert (Hpk1 : bookings_pkey d1).
  { unfold bookings_pkey, d1. by rewrite update_bookings_by_id_ids. }
  assert (Hb1 : b1 ∈ bookings d1) by (by apply update_bookings_by_id_target).
  assert (Hfields :
    Booking.status b1 = Some st /\
    Booking.queue_position b1 = Booking.queue_position b /\
    Booking.estimated_wait_time b1 = Booking.estimated_wait_time b /\
    Booking.started_at b1 =
      (if decide (st = in_progress) then Some cn else Booking.started_at b) /\
    Booking.completed_at b1 =
      (if decide (st = completed) then Some cn else Booking.completed_at b) /\
    Booking.updated_at b1 = Some now1).
  { unfold b1. simpl. by destruct st. }
  assert (Hin1 : forall x, x ∈ bookings d1 -> Booking.id x = Booking.id b -> x = b1).
  { intros x Hx Hid. by eapply (pkey_inj Booking.id). }
  assert (Hin2 : forall s d2, update_queue_positions now2 s d1 = Ok d2 ->
            b1 ∈ bookings d2 /\
            forall x, x ∈ bookings d2 -> Booking.id x = Booking.id b -> x = b1).
  { intros s d2 H2.
    pose proof (update_queue_positions_ids _ _ _ _ Hpk1 H2) as Hids.
    pose proof (update_queue_positions_Ok _ _ _ _ Hpk1 H2) as Hd2.
    assert (Hb2 : b1 ∈ bookings d2).
    { rewrite Hd2. cbn [bookings with_bookings]. apply list_elem_of_fmap.
      exists b1. split; [|done]. symmetry.
      apply (requeued_not_waiting now2 _ 1 s d1); [done|done|].
      unfold waiting_in. destruct Hfields as [-> _]. intros [_ [= ?]]. done. }
    split; [done|]. intros x Hx Hid.
    apply (pkey_inj Booking.id (bookings d2)); [|done|done|done].
    by rewrite Hids. }
  destruct myShop as [shop|]; [|by exists b1].
  destruct (update_queue_positions now2 (Shop.id shop) d1) as [d2|e] eqn:H2.
  - destruct (Hin2 _ _ H2) as [Hb2 Huniq]. by exists b1.
  - by exists b1.
Qed.

Lemma left_booking_keeps_its_last_position_witness :
  let d2 := updateBookingStatus 9100 9200 9050 107 (Some (Scenario.shop 7 (Some 30)))
              6 completed Chair.state in
  exists b2,
    b2 ∈ bookings d2 /\
    (forall x, x ∈ bookings d2 -> Booking.id x = 6 -> x = b2) /\
    Booking.status b2 = Some completed /\
    Booking.queue_position b2 = None /\
    Booking.estimated_wait_time b2 = None /\
    Booking.started_at b2 = None /\
    Booking.completed_at b2 = Some 9050 /\
    Booking.updated_at b2 = Some 9100.
Proof.
  apply (left_booking_keeps_its_last_position 9100 9200 9050 107
           (Some (Scenario.shop 7 (Some 30))) Chair.D completed Chair.state).
  - by_compute.
  - apply (list_elem_of_lookup_2 _ 3%nat). reflexivity.
  - vm_compute. reflexivity.
  - discriminate.
Defined.

(** X9. The handler's two calls are two transactions and the second is not
    checked: when the recompute cannot complete, the change of status stays
    in the table, no queue position is rewritten, and the handler goes on as
    if all had gone well. *)
Theorem failed_recompute_leaves_the_status_change now1 now2 cn uid (shop : Shop.row) bid st d :
  ~ queue_fits (Shop.id shop)
      (update_bookings_by_id now1 uid bid (updateData cn st) d) ->
  updateBookingStatus now1 now2 cn uid (Some shop) bid st d =
  update_bookings_by_id now1 uid bid (updateData cn st) d.
Proof.
  intros Hnofit. unfold updateBookingStatus. cbv zeta.
  destruct (update_queue_positions _ _ _) as [d2|e] eqn:H2; [|done].
  exfalso. apply Hnofit. by eapply update_queue_positions_Ok_fits.
Qed.

Lemma failed_recompute_leaves_the_status_change_witness :
  updateBookingStatus 9100 9200 9050 107 (Some (Scenario.shop 7 (Some 2147483647)))
    1 cancelled Overflow.busy =
  update_bookings_by_id 9100 107 1 (updateData 9050 cancelled) Overflow.busy.
Proof.
  apply failed_recompute_leaves_the_status_change.
  intros [_ Hfit]. specialize (Hfit 2147483647 3 eq_refl).
  vm_compute in Hfit. destruct Hfit as [_ Hfit]; [split; discriminate|].
  by apply Hfit.
Defined.

(** ** CustomerDashboard.joinQueue and BarberDashboard.addWalkInCustomer *)

Lemma insert_waiting_booking_Ok now fresh uid shop_id name price d d' :
  insert_waiting_booking now fresh uid shop_id name price d = Ok d' ->
  Z.abs price < 10000000000 /\
  (fresh ∉ Booking.id <$> bookings d) /\
  (uid ∈ AuthUser.id <$> auth_users d) /\
  (shop_id ∈ Shop.id <$> barber_shops d) /\
  d' = with_bookings
         (bookings d ++
          [Booking.mk fresh uid shop_id name (Some price) (Some waiting)
             None None (Some now) None None (Some now) (Some now)]) d.
Proof.
  unfold insert_waiting_booking. intros H.
  bind_inv H as p Hp. bind_inv H as u1 H1. bind_inv H as u2 H2. bind_inv H as u3 H3.
  injection H as <-. unfold numeric_10_2 in Hp.
  destruct (Z.abs price <? 10000000000) eqn:Hlt; [|done]. injection Hp as <-.
  apply Z.ltb_lt in Hlt.
  apply ensure_Ok, bool_decide_eq_true in H1, H2, H3. done.
Qed.

Lemma insert_waiting_booking_total now fresh uid shop_id name price d :
  Z.abs price < 10000000000 ->
  fresh ∉ Booking.id <$> bookings d ->
  uid ∈ AuthUser.id <$> auth_users d ->
  shop_id ∈ Shop.id <$> barber_shops d ->
  exists d', insert_waiting_booking now fresh uid shop_id name price d = Ok d'.
Proof.
  intros Hp H1 H2 H3. unfold insert_waiting_booking, numeric_10_2.
  apply Z.ltb_lt in Hp. rewrite Hp. simpl.
  rewrite !bool_decide_eq_true_2 by done. simpl. eauto.
Qed.

(** X10. Joining a queue completes exactly when the price fits its column,
    the drawn id is new, and the customer and the shop exist; nothing else
    is looked at, neither max_queue_limit nor is_active nor a booking the
    customer already has there.  What it stores is one more booking, waiting,
    joined at now(), with no queue position and no estimated wait: the
    procedure that assigns them is not called, and no other row changes. *)
Theorem join_stores_a_booking_without_position now fresh uid shopId name price d :
  ((exists d', joinQueue now fresh (Some uid) shopId name price d = Ok d') <->
   Z.abs price < 10000000000 /\
   (fresh ∉ Booking.id <$> bookings d) /\
   (uid ∈ AuthUser.id <$> auth_users d) /\
   (shopId ∈ Shop.id <$> barber_shops d)) /\
  (forall d', joinQueue now fresh (Some uid) shopId name price d = Ok d' ->
     auth_users d' = auth_users d /\ profiles d' = profiles d /\
     barber_shops d' = barber_shops d /\ reviews d' = reviews d /\
     exists b,
       bookings d' = bookings d ++ [b] /\
       Booking.id b = fresh /\ Booking.user_id b = uid /\ Booking.shop_id b = shopId /\
       Booking.status b = Some waiting /\
       Booking.joined_at b = Some now /\
       Booking.queue_position b = None /\
       Booking.estimated_wait_time b = None).
Proof.
  unfold joinQueue. split; [split|].
  - intros [d' H]. apply insert_waiting_booking_Ok in H. tauto.
  - intros (Hp & H1 & H2 & H3). by apply insert_waiting_booking_total.
  - intros d' H. apply insert_waiting_booking_Ok in H as (_ & _ & _ & _ & ->).
    simpl. repeat split. eexists. split; [done|]. done.
Qed.

Lemma join_stores_a_booking_without_position_witness :
  exists d',
    joinQueue 5000 10 (Some 201) 7 "Haircut" 2500 Chair.state = Ok d' /\
    exists b,
      bookings d' = bookings Chair.state ++ [b] /\
      Booking.id b = 10 /\ Booking.user_id b = 201 /\ Booking.shop_id b = 7 /\
      Booking.status b = Some waiting /\
      Booking.joined_at b = Some 5000 /\
      Booking.queue_position b = None /\
      Booking.estimated_wait_time b = None.
Proof.
  destruct (join_stores_a_booking_without_position 5000 10 201 7 "Haircut" 2500
              Chair.state) as [Hruns Hpost].
  destruct (proj2 Hruns) as [d' Hd'].
  - split; [vm_compute; reflexivity|]. split; [by_compute|]. split; by_compute.
  - exists d'. split; [exact Hd'|]. apply (Hpost d' Hd').
Defined.

Lemma filter_snoc_True {A} (P : A -> Prop) `{!forall x, Decision (P x)} (l : list A) x :
  P x -> filter P (l ++ [x]) = filter P l ++ [x].
Proof. intros Hx. rewrite filter_app. f_equal. by rewrite filter_cons_True. Qed.

(** X11. First come, first served: when a customer joins later than anyone
    waiting in the shop, and no two of those joined at the same time, the
    next recompute, whatever answer its query gives, leaves those who were
    waiting in their order with positions 1..N and gives the newcomer
    position N+1.  Before and after, the queue is the only ascending order of
    the waiting bookings there is. *)
Theorem newcomer_goes_to_the_end now now2 fresh uid s name price d d1 d2 :
  bookings_pkey d ->
  distinct_join_times s (bookings d) ->
  Forall (fun b => exists t, Booking.joined_at b = Some t /\ t < now)
         (filter (waiting_in s) (bookings d)) ->
  joinQueue now fresh (Some uid) s name price d = Ok d1 ->
  recompute_outcome now2 s d1 d2 ->
  let q := waiting_queue s (bookings d) in
  let q2 := waiting_queue s (bookings d2) in
  (forall a, queue_answer s (bookings d) a -> a = q) /\
  (forall a, queue_answer s (bookings d2) a -> a = q2) /\
  update_queue_positions now2 s d1 = Ok d2 /\
  Booking.id <$> q2 = (Booking.id <$> q) ++ [fresh] /\
  Booking.queue_position <$> q2 = Some <$> seqZ 1 (Z.of_nat (length q) + 1).
Proof.
  intros Hpk Hdist Hearlier H1 H2 q q2. unfold joinQueue in H1.
  apply insert_waiting_booking_Ok in H1 as (_ & Hfresh & _ & _ & Hd1).
  set (b := Booking.mk fresh uid s name (Some price) (Some waiting)
              None None (Some now) None None (Some now) (Some now)) in *.
  assert (Hpk1 : bookings_pkey d1).
  { unfold bookings_pkey. rewrite Hd1. cbn [bookings with_bookings].
    rewrite fmap_app. apply NoDup_app. split; [done|]. split; [|apply NoDup_singleton].
    intros x Hx Hx'. apply list_elem_of_singleton in Hx'. by subst. }
  assert (Hq1 : waiting_queue s (bookings d1) = q ++ [b]).
  { rewrite Hd1. cbn [bookings with_bookings]. unfold waiting_queue.
    rewrite filter_snoc_True by done. apply order_by_snoc.
    eapply Forall_impl; [exact Hearlier|]. intros x (t & Ht & Hle).
    unfold key_le. rewrite Ht. simpl. lia. }
  assert (Hdist1 : distinct_join_times s (bookings d1)).
  { apply (proj2 (distinct_join_times_queue _ _)). rewrite Hq1, fmap_app.
    apply NoDup_app.
    split; [exact (proj1 (distinct_join_times_queue _ _) Hdist)|].
    split; [|apply NoDup_singleton].
    intros x Hx Hx'. apply list_elem_of_singleton in Hx'. subst x.
    apply list_elem_of_fmap in Hx as (b' & Hb' & Hin).
    unfold q, waiting_queue in Hin. rewrite order_by_Permutation in Hin.
    rewrite Forall_forall in Hearlier. destruct (Hearlier b' Hin) as (t & Ht & Hlt).
    rewrite Ht in Hb'. simpl in Hb'. injection Hb' as Hb'. lia. }
  apply recompute_outcome_unique in H2; [|done].
  pose proof (update_queue_positions_Ok _ _ _ _ Hpk1 H2) as Hd2.
  assert (Hdist2 : distinct_join_times s (bookings d2)).
  { rewrite Hd2. cbn [bookings with_bookings].
    by apply (proj2 (distinct_join_times_requeued _ _ _ _ _ _)). }
  assert (Hids : Booking.id <$> q2 = Booking.id <$> waiting_queue s (bookings d1)).
  { unfold q2. rewrite Hd2. cbn [bookings with_bookings].
    rewrite waiting_queue_requeued, <- list_fmap_compose.
    apply list_fmap_ext. intros _ x _. apply requeued_id. }
  split; [intros a Ha; by apply queue_answer_unique|].
  split; [intros a Ha; by apply queue_answer_unique|].
  split; [done|]. split.
  - by rewrite Hids, Hq1, fmap_app.
  - unfold q2. rewrite (queue_positions_seq _ _ _ _ Hpk1 H2). do 2 f_equal.
    fold q2. rewrite <- (length_fmap Booking.id q2), Hids, Hq1, length_fmap, length_app.
    simpl. lia.
Qed.

Lemma newcomer_goes_to_the_end_witness :
  exists d1 d2,
    joinQueue 5000 10 (Some 201) 7 "Haircut" 2500 Chair.state = Ok d1 /\
    (forall a, queue_answer 7 (bookings Chair.state) a ->
               a = waiting_queue 7 (bookings Chair.state)) /\
    (forall a, queue_answer 7 (bookings d2) a -> a = waiting_queue 7 (bookings d2)) /\
    update_queue_positions 5100 7 d1 = Ok d2 /\
    Booking.id <$> waiting_queue 7 (bookings d2) = [1; 2; 3; 10] /\
    Booking.queue_position <$> waiting_queue 7 (bookings d2) =
      [Some 1; Some 2; Some 3; Some 4].
Proof.
  eexists _, _. split; [vm_compute; reflexivity|].
  refine (newcomer_goes_to_the_end 5000 5100 10 201 7 "Haircut" 2500 Chair.state
            _ _ _ _ _ _ _).
  - by_compute.
  - by_compute.
  - repeat constructor; eexists; (split; [reflexivity|reflexivity]).
  - vm_compute. reflexivity.
  - apply update_queue_positions_outcome. vm_compute. reflexivity.
Defined.

(** ** BarberDashboard.fetchCurrentQueue *)

Lemma filter_lookup_count {A} (P : A -> Prop) `{!forall x, Decision (P x)}
    (l : list A) i x :
  l !! i = Some x -> P x -> filter P l !! length (filter P (take i l)) = Some x.
Proof.
  intros Hi Hx.
  replace (filter P l) with (filter P (take i l ++ x :: drop (S i) l))
    by (by rewrite take_drop_middle).
  rewrite filter_app, filter_cons_True by done. by apply list_lookup_middle.
Qed.

Lemma length_filter_two {A} (P Q : A -> Prop) `{!forall x, Decision (P x)}
    `{!forall x, Decision (Q x)} (l : list A) :
  (forall x, x ∈ l -> (P x \/ Q x) /\ ~ (P x /\ Q x)) ->
  (length (filter P l) + length (filter Q l) = length l)%nat.
Proof.
  induction l as [|x l IH]; intros Hall; [done|].
  assert (IH' : (length (filter P l) + length (filter Q l) = length l)%nat).
  { apply IH. intros y Hy. apply Hall. by constructor. }
  destruct (Hall x ltac:(constructor)) as [Hor Hnot].
  rewrite !filter_cons.
  destruct (decide (P x)), (decide (Q x)); simpl; try lia; tauto.
Qed.

Lemma length_filter_fmap {A B} (f : A -> B) (P : B -> Prop) `{!forall y, Decision (P y)}
    (l : list A) :
  length (filter P (f <$> l)) = length (filter (fun x => P (f x)) l).
Proof.
  induction l as [|x l IH]; [done|]. rewrite fmap_cons, !filter_cons.
  destruct (decide (P (f x))); simpl; by rewrite IH.
Qed.

(** What the owner of a shop that is on view sees of its queue. *)
Lemma owner_sees_queue uid s d :
  owns_shop uid s d = true ->
  filter (in_queue_view s) (filter (fun b => booking_policy uid d b = true) (bookings d)) =
  filter (in_queue_view s) (bookings d).
Proof.
  intros Hown. rewrite list_filter_filter. apply list_filter_iff.
  intros b. split; [tauto|]. intros Hv. split; [done|].
  unfold booking_policy. destruct Hv as [-> _]. rewrite Hown.
  by destruct (bool_decide _).
Qed.

Lemma waiting_queue_of_view s (bs : list Booking.row) :
  waiting_queue s bs =
  filter (fun b => Booking.status b = Some waiting)
         (order_by Booking.joined_at (filter (in_queue_view s) bs)).
Proof.
  unfold waiting_queue. rewrite <- order_by_filter, list_filter_filter. f_equal.
  apply list_filter_iff. intros b. unfold waiting_in, in_queue_view. tauto.
Qed.

Lemma distinct_view_waiting s bs : distinct_view_times s bs -> distinct_join_times s bs.
Proof.
  unfold distinct_view_times, distinct_join_times. intros H.
  eapply sublist_NoDup; [exact H|]. apply fmap_sublist.
  replace (filter (waiting_in s) bs)
    with (filter (fun b => Booking.status b = Some waiting) (filter (in_queue_view s) bs));
    [apply sublist_filter|].
  rewrite list_filter_filter. apply list_filter_iff.
  intros b. unfold waiting_in, in_queue_view. tauto.
Qed.

Lemma distinct_view_times_requeued now avg ids c s bs :
  distinct_view_times s bs -> distinct_view_times s (requeued now avg ids c <$> bs).
Proof.
  unfold distinct_view_times. intros H.
  rewrite filter_fmap_stable.
  - rewrite <- list_fmap_compose.
    replace ((Booking.joined_at ∘ requeued now avg ids c) <$> filter (in_queue_view s) bs)
      with (Booking.joined_at <$> filter (in_queue_view s) bs); [done|].
    apply list_fmap_ext. intros _ x _. symmetry. apply requeued_joined_at.
  - intros x.
    destruct (requeued_same_but_queue now avg ids c x) as (_ & _ & Hs & _ & _ & Hst & _).
    unfold in_queue_view. by rewrite Hs, Hst.
Qed.

(** X12. In a shop where no two bookings that wait or are being served
    joined at the same time: right after a completed recompute, the shop's
    owner (whose shop is on view) sees in the dashboard the waiting and the
    in-progress bookings together, by join time, the only such order there
    is, and the number printed before a waiting booking is its queue position
    plus the number of in-progress bookings listed above it: the two agree
    only when nobody above is in the chair. *)
Theorem dashboard_label_counts_the_chair now uid (shop : Shop.row) d d' L :
  bookings_pkey d ->
  owns_shop uid (Shop.id shop) d = true ->
  distinct_view_times (Shop.id shop) (bookings d) ->
  recompute_outcome now (Shop.id shop) d d' ->
  fetchCurrentQueue uid (Some shop) d' = Some L ->
  (forall V,
     V ≡ₚ filter (in_queue_view (Shop.id shop)) (bookings d') ->
     Sorted (key_le Booking.joined_at) V -> V = fst <$> L) /\
  forall i b c,
    L !! i = Some (b, c) -> Booking.status b = Some waiting ->
    Booking.queue_position b =
      Some (queue_label i -
            Z.of_nat (length (filter (fun e => Booking.status (fst e) = Some in_progress)
                                     (take i L)))).
Proof.
  intros Hpk Hown Hview H HL.
  apply recompute_outcome_unique in H; [|by apply distinct_view_waiting].
  set (s := Shop.id shop) in *.
  assert (Hshops : barber_shops d' = barber_shops d).
  { apply update_queue_positions_Ok in H; [|done]. by rewrite H. }
  assert (Hown' : owns_shop uid s d' = true).
  { unfold owns_shop. by rewrite Hshops. }
  assert (Hview' : distinct_view_times s (bookings d')).
  { rewrite (update_queue_positions_Ok _ _ _ _ Hpk H). cbn [bookings with_bookings].
    by apply distinct_view_times_requeued. }
  unfold fetchCurrentQueue in HL. cbv zeta in HL. fold s in HL.
  rewrite owner_sees_queue in HL by done. injection HL as <-.
  set (V := order_by Booking.joined_at (filter (in_queue_view s) (bookings d'))) in *.
  split.
  { intros V' Hperm Hsorted. rewrite <- list_fmap_compose.
    transitivity V; [|symmetry; etransitivity; [|apply list_fmap_id];
                      apply list_fmap_ext; done].
    apply order_by_unique; [|done|done].
    intros x y Hx Hy.
    by apply (NoDup_fmap_inj Booking.joined_at (filter (in_queue_view s) (bookings d'))). }
  intros i b c Hi Hw.
  apply list_lookup_fmap_Some in Hi as (b0 & Hbc & Hi). injection Hbc as <- _.
  rewrite <- fmap_take, (length_filter_fmap _ (fun e => Booking.status (fst e) = Some in_progress)).
  cbn [fst].
  set (k := length (filter (fun x => Booking.status x = Some in_progress) (take i V))).
  set (j := length (filter (fun x => Booking.status x = Some waiting) (take i V))).
  assert (Hj : waiting_queue s (bookings d') !! j = Some b).
  { rewrite waiting_queue_of_view. by apply filter_lookup_count. }
  destruct (queue_after _ _ _ _ _ _ Hpk H Hj) as (b1 & _ & ->).
  cbn [update_row update_updated_at_column set_updated_at booking_updated_at
       Booking.with_updated_at Booking.with_queue Booking.queue_position].
  f_equal. unfold queue_label.
  assert (Hsum : (j + k = i)%nat).
  { unfold j, k. rewrite length_filter_two.
    - rewrite length_take. apply lookup_lt_Some in Hi. lia.
    - intros x Hx. apply elem_of_take in Hx as (n & Hx & _).
      apply list_elem_of_lookup_2 in Hx. unfold V in Hx.
      rewrite order_by_Permutation in Hx.
      apply list_elem_of_filter in Hx as [[_ Hst] _].
      split; [done|]. intros [H1 H2]. congruence. }
  lia.
Qed.

Lemma dashboard_label_counts_the_chair_witness :
  exists d' L,
    update_queue_positions 9000 7 Chair.state = Ok d' /\
    fetchCurrentQueue 107 (Some (Scenario.shop 7 (Some 30))) d' = Some L /\
    (forall V,
       V ≡ₚ filter (in_queue_view 7) (bookings d') ->
       Sorted (key_le Booking.joined_at) V -> V = fst <$> L) /\
    forall i b c,
      L !! i = Some (b, c) -> Booking.status b = Some waiting ->
      Booking.queue_position b =
        Some (queue_label i -
              Z.of_nat (length (filter (fun e => Booking.status (fst e) = Some in_progress)
                                       (take i L)))).
Proof.
  eexists _, _. split; [vm_compute; reflexivity|]. split; [vm_compute; reflexivity|].
  refine (dashboard_label_counts_the_chair 9000 107 (Scenario.shop 7 (Some 30))
            Chair.state _ _ _ _ _ _ _).
  - by_compute.
  - vm_compute. reflexivity.
  - by_compute.
  - apply update_queue_positions_outcome. vm_compute. reflexivity.
  - vm_compute. reflexivity.
Defined.

Example chair_dashboard :
  match update_queue_positions 9000 7 Chair.state with
  | Ok d' =>
      option_map
        (map (fun e : Booking.row * (text * text) =>
                (Booking.id (fst e), Booking.queue_position (fst e), fst (snd e))))
        (fetchCurrentQueue 107 (Some (Scenario.shop 7 (Some 30))) d')
  | Raise _ => None
  end =
  Some [(6, None, "Unknown Customer"); (1, Some 1, "Unknown Customer");
        (2, Some 2, "Unknown Customer"); (3, Some 3, "Unknown Customer")].
Proof. vm_compute. reflexivity. Qed.

(** ** BarberDashboard.fetchTodayStats *)

Lemma joined_today_iff cn (b : Booking.row) t :
  Booking.joined_at b = Some t ->
  joined_today cn b = true <->
  cn / microseconds_per_day = t / microseconds_per_day /\
  t mod microseconds_per_day <= microseconds_per_day - 1000.
Proof.
  intros Ht. unfold joined_today, today_until, today_from. rewrite Ht.
  rewrite andb_true_iff, !Z.leb_le.
  assert (HD : microseconds_per_day = 86400000000) by reflexivity.
  pose proof (Z.div_mod t microseconds_per_day ltac:(lia)) as Hdm.
  pose proof (Z.mod_pos_bound t microseconds_per_day ltac:(lia)) as Hmod.
  set (k := cn / microseconds_per_day) in *.
  split.
  - intros [Hlo Hhi].
    assert (Hk : t / microseconds_per_day = k).
    { symmetry. apply (Z.div_unique t microseconds_per_day k (t - k * microseconds_per_day)); lia. }
    split; [done|]. rewrite Hk in Hdm. lia.
  - intros [Hk Hlast]. rewrite <- Hk in Hdm. lia.
Qed.

(** X13. The daily statistics count a booking on the UTC day of the
    browser's clock exactly when it joined on that day and not within its
    last 999 microseconds: the day is read up to 23:59:59.999, the column
    keeps microseconds.  So a shop whose bookings all joined in such an
    instant has 0 bookings and 0 served customers on every day. *)
Theorem today_stats_miss_the_last_instants uid (shop : Shop.row) d :
  (forall cn (b : Booking.row) t,
     Booking.joined_at b = Some t ->
     joined_today cn b = true <->
     cn / microseconds_per_day = t / microseconds_per_day /\
     t mod microseconds_per_day <= microseconds_per_day - 1000) /\
  ((forall b, b ∈ bookings d -> Booking.shop_id b = Shop.id shop ->
      exists t, Booking.joined_at b = Some t /\
                microseconds_per_day - 1000 < t mod microseconds_per_day) ->
   forall cn, fetchTodayStats cn uid (Some shop) d = Some (0, 0)).
Proof.
  split; [intros cn b t; apply joined_today_iff|].
  intros Hlate cn. unfold fetchTodayStats. cbv zeta.
  rewrite filter_none; [done|].
  intros b Hb Hshop. apply list_elem_of_filter in Hb as [Htoday Hb].
  apply list_elem_of_filter in Hb as [_ Hb].
  destruct (Hlate b Hb Hshop) as (t & Ht & Hmod).
  apply (joined_today_iff cn b t Ht) in Htoday as [_ Hle]. lia.
Qed.

Lemma today_stats_miss_the_last_instants_witness :
  fetchTodayStats 43200000000 107 (Some (Scenario.shop 7 (Some 30)))
    (mkdb [] [] [Scenario.shop 7 (Some 30)]
          [Scenario.booking 1 7 completed 86399999500] []) = Some (0, 0) /\
  fetchTodayStats 86400000000 107 (Some (Scenario.shop 7 (Some 30)))
    (mkdb [] [] [Scenario.shop 7 (Some 30)]
          [Scenario.booking 1 7 completed 86399999500] []) = Some (0, 0).
Proof.
  assert (Hlate : forall b,
            b ∈ bookings (mkdb [] [] [Scenario.shop 7 (Some 30)]
                            [Scenario.booking 1 7 completed 86399999500] []) ->
            Booking.shop_id b = Shop.id (Scenario.shop 7 (Some 30)) ->
            exists t, Booking.joined_at b = Some t /\
                      microseconds_per_day - 1000 < t mod microseconds_per_day).
  { intros b Hb _. apply list_elem_of_singleton in Hb as ->.
    exists 86399999500. split; [reflexivity|]. vm_compute. reflexivity. }
  split;
    apply (proj2 (today_stats_miss_the_last_instants 107 (Scenario.shop 7 (Some 30)) _)
             Hlate).
Defined.

(** ** The later CREATE TYPE user_role *)

(** X15. The block that creates user_role with the labels customer and
    barber "if it doesn't exist" never raises and never changes a type that
    is there: after the first migration has created the type with customer,
    barber and admin, the block leaves all three labels; it only creates the
    two-label type in a catalogue that has none, and touches no other
    type. *)
Theorem later_create_type_keeps_admin (cat : gmap string (list text)) :
  create_user_role_if_missing cat !! "user_role" =
    Some (default ["customer"; "barber"] (cat !! "user_role")) /\
  (forall name, name <> "user_role" ->
     create_user_role_if_missing cat !! name = cat !! name) /\
  (forall cat1,
     create_type_enum "user_role" (user_role_label <$> [customer; barber; admin]) cat
       = Created cat1 ->
     create_user_role_if_missing cat1 = cat1 /\
     cat1 !! "user_role" = Some ["customer"; "barber"; "admin"]).
Proof.
  unfold create_user_role_if_missing, create_type_enum. split; [|split].
  - destruct (cat !! "user_role") as [ls|] eqn:Hc; simpl; [done|].
    by rewrite lookup_insert_eq.
  - intros name Hne. destruct (cat !! "user_role"); [done|].
    by rewrite lookup_insert_ne.
  - intros cat1 H. destruct (cat !! "user_role") eqn:Hc; [done|].
    injection H as <-. rewrite lookup_insert_eq. simpl.
    split; [done|]. by rewrite lookup_insert_eq.
Qed.

Lemma later_create_type_keeps_admin_witness :
  exists cat1,
    create_type_enum "user_role" (user_role_label <$> [customer; barber; admin]) ∅
      = Created cat1 /\
    create_user_role_if_missing cat1 = cat1 /\
    cat1 !! "user_role" = Some ["customer"; "barber"; "admin"].
Proof.
  eexists. split; [reflexivity|].
  apply (proj2 (proj2 (later_create_type_keeps_admin ∅))). reflexivity.
Defined.

(** ** BarberDashboard.addWalkInCustomer, seen in the dashboard *)


